(** * docx-modify-agent: the format-preserving substitution engine

    A shallow embedding of [src/docx_processor.py] (class [DocxProcessor])
    and of the placeholder machinery of [src/resume_processor.py]
    (class [ResumeProcessor]), followed by the properties of the
    specification that concern them.

    Conventions.
    - A Python [str] is a list of Unicode code points ([pystr]).
    - The document object model of python-docx is represented by records:
      a paragraph is its ordered runs plus its paragraph-level layout, the
      body is the ordered list of its block children.
    - A Python function that may raise returns a [result]; one that mutates
      the document before raising returns the mutated state next to the
      [result]. *)

From Stdlib Require Import ZArith NArith QArith.QArith_base Lia.
From Stdlib Require Import Strings.Ascii Strings.String.
From stdpp Require Import base option list strings gmap.

Open Scope N_scope.
Open Scope nat_scope.

(** ** Python strings *)

Module Py.

Definition char := N.
Definition pystr := list char.

(** A literal of the development: the code points of an ASCII string. *)
Definition str (s : string) : pystr :=
  List.map N_of_ascii (list_ascii_of_string s).

Definition BACKSLASH : char := 92%N.
Definition NEWLINE : char := 10%N.
Definition DOT : char := 46%N.
Definition LBRACE : char := 123%N.
Definition RBRACE : char := 125%N.
Definition BULLET : char := 8226%N.

(** [str.lower] on one character.  Only the ASCII letters are folded, and
    [re.IGNORECASE] compares characters through the same folding; no
    statement below depends on how the other characters are folded. *)
Definition lower_char (c : char) : char :=
  if ((65 <=? c) && (c <=? 90))%N then (c + 32)%N else c.

Definition lower (s : pystr) : pystr := List.map lower_char s.

(** [str.isspace] on one character (the Unicode white space table). *)
Definition is_space (c : char) : bool :=
  (((9 <=? c) && (c <=? 13)) || ((28 <=? c) && (c <=? 32))
   || (c =? 133) || (c =? 160) || (c =? 5760)
   || ((8192 <=? c) && (c <=? 8202))
   || (c =? 8232) || (c =? 8233) || (c =? 8239) || (c =? 8287)
   || (c =? 12288))%N.

Fixpoint lstrip (s : pystr) : pystr :=
  match s with
  | c :: rest => if is_space c then lstrip rest else s
  | [] => []
  end.

Definition rstrip (s : pystr) : pystr := rev (lstrip (rev s)).

(** [s.strip()] *)
Definition strip (s : pystr) : pystr := rstrip (lstrip s).

(** Comparison of two characters, exact or modulo case. *)
Definition char_eqb (case_sensitive : bool) (a b : char) : bool :=
  if case_sensitive then (a =? b)%N else (lower_char a =? lower_char b)%N.

(** The literal [pat] is read at the start of [text]. *)
Fixpoint match_here (case_sensitive : bool) (pat text : pystr) : bool :=
  match pat, text with
  | [], _ => true
  | _ :: _, [] => false
  | p :: pat', c :: text' =>
      char_eqb case_sensitive p c && match_here case_sensitive pat' text'
  end.

(** [text.startswith(pre)] *)
Definition startswith (text pre : pystr) : bool := match_here true pre text.

(** [sub in text] *)
Fixpoint contains (sub text : pystr) : bool :=
  match_here true sub text
  || match text with
     | [] => false
     | _ :: rest => contains sub rest
     end.

(** [text.find(sub)]: the least index of an occurrence, or -1. *)
Fixpoint find_from (sub text : pystr) (pos : nat) : Z :=
  if match_here true sub text then Z.of_nat pos
  else match text with
       | [] => (-1)%Z
       | _ :: rest => find_from sub rest (S pos)
       end.

Definition find (text sub : pystr) : Z := find_from sub text 0.

(** [text.count(old)]: occurrences counted left to right without overlap;
    [skip] is the number of characters still covered by the last
    occurrence.  An empty [old] occurs once at every position, the end
    included. *)
Fixpoint count_from (old : pystr) (skip : nat) (text : pystr) : nat :=
  match text with
  | [] => match skip, old with
          | 0, [] => 1
          | _, _ => 0
          end
  | _ :: rest =>
      match skip with
      | S k => count_from old k rest
      | 0 => if match_here true old text
             then S (count_from old (length old - 1) rest)
             else count_from old 0 rest
      end
  end.

Definition count (text old : pystr) : nat := count_from old 0 text.

(** [text.replace(old, new)] *)
Fixpoint replace_from (old new : pystr) (skip : nat) (text : pystr) : pystr :=
  match text with
  | [] => match skip, old with
          | 0, [] => new
          | _, _ => []
          end
  | c :: rest =>
      match skip with
      | S k => replace_from old new k rest
      | 0 => if match_here true old text
             then new ++ match old with
                         | [] => c :: replace_from old new 0 rest
                         | _ :: _ => replace_from old new (length old - 1) rest
                         end
             else c :: replace_from old new 0 rest
      end
  end.

Definition replace (text old new : pystr) : pystr := replace_from old new 0 text.

(** [sep.join(parts)] *)
Fixpoint join (sep : pystr) (parts : list pystr) : pystr :=
  match parts with
  | [] => []
  | [p] => p
  | p :: rest => p ++ sep ++ join sep rest
  end.

(** [text.split(sep)] for a one-character separator: never empty. *)
Fixpoint split (sep : char) (text : pystr) : list pystr :=
  match text with
  | [] => [[]]
  | c :: rest =>
      if (c =? sep)%N then [] :: split sep rest
      else match split sep rest with
           | seg :: segs => (c :: seg) :: segs
           | [] => [[c]]
           end
  end.

(** The exceptions that the modelled code can meet. *)
Inductive exn :=
  | IndexError
  | ValueError
  | re_error
  | EditOperationError.

Inductive result (A : Type) :=
  | Ok (a : A)
  | Raise (e : exn).
Arguments Ok {A} a.
Arguments Raise {A} e.

Definition bind {A B} (r : result A) (k : A -> result B) : result B :=
  match r with
  | Ok a => k a
  | Raise e => Raise e
  end.

End Py.

Export Py.

Notation "x <-! r ; k" := (Py.bind r (fun x => k))
  (at level 100, r at next level, right associativity, only parsing).

(** ** The fragment of Python's [re] that the code uses *)

Module Re.

(** [re.finditer(re.escape(search), text, flags)]: the spans [(start, end)]
    of the occurrences of the literal [search], leftmost first and without
    overlap; [flags] is [re.IGNORECASE] when [case_sensitive] is false.
    The empty pattern matches once at every position, the end included. *)
Fixpoint scan (case_sensitive : bool) (pat : pystr) (skip pos : nat)
    (text : pystr) : list (nat * nat) :=
  match text with
  | [] => match skip, pat with
          | 0, [] => [(pos, pos)]
          | _, _ => []
          end
  | _ :: rest =>
      match skip with
      | S k => scan case_sensitive pat k (S pos) rest
      | 0 => if match_here case_sensitive pat text
             then (pos, pos + length pat)
                  :: scan case_sensitive pat (length pat - 1) (S pos) rest
             else scan case_sensitive pat 0 (S pos) rest
      end
  end.

Definition finditer (case_sensitive : bool) (search text : pystr)
    : list (nat * nat) :=
  scan case_sensitive search 0 0 text.

(** [len(re.findall(re.escape(search), text, re.IGNORECASE))] counts the
    same matches. *)
Definition findall_count (search text : pystr) : nat :=
  length (finditer false search text).

(** *** Replacement templates ([re/_parser.py], [parse_template])

    The tokenizer reads a backslash together with the character after
    it.  The pattern is an escaped literal: it has no group but group 0. *)
Inductive token :=
  | TChar (c : char)
  | TEsc (c : char).

Fixpoint tokenize (s : pystr) : result (list token) :=
  match s with
  | [] => Ok []
  | c :: rest =>
      if (c =? BACKSLASH)%N then
        match rest with
        | [] => Raise re_error
        | d :: rest' => toks <-! tokenize rest'; Ok (TEsc d :: toks)
        end
      else toks <-! tokenize rest; Ok (TChar c :: toks)
  end.

Inductive part :=
  | Literal (c : pystr)
  | Group0.

Definition is_ascii_digit (c : char) : bool := ((48 <=? c) && (c <=? 57))%N.
Definition is_oct_digit (c : char) : bool := ((48 <=? c) && (c <=? 55))%N.
Definition is_ascii_letter (c : char) : bool :=
  (((65 <=? c) && (c <=? 90)) || ((97 <=? c) && (c <=? 122)))%N.
Definition digit_val (c : char) : N := (c - 48)%N.

(** The table [ESCAPES] of the parser. *)
Definition escapes (c : char) : option char :=
  if (c =? 97)%N then Some 7%N          (* \a *)
  else if (c =? 98)%N then Some 8%N      (* \b *)
  else if (c =? 102)%N then Some 12%N    (* \f *)
  else if (c =? 110)%N then Some 10%N    (* \n *)
  else if (c =? 114)%N then Some 13%N    (* \r *)
  else if (c =? 116)%N then Some 9%N     (* \t *)
  else if (c =? 118)%N then Some 11%N    (* \v *)
  else if (c =? 92)%N then Some 92%N     (* \\ *)
  else None.

(** The group name between [\g<] and [>] is a run of tokens; it denotes a
    group number when every token is a plain ASCII digit. *)
Fixpoint group_number (acc : N) (name : list token) : option N :=
  match name with
  | [] => Some acc
  | TChar c :: rest =>
      if is_ascii_digit c
      then group_number (10 * acc + digit_val c)%N rest
      else None
  | TEsc _ :: _ => None
  end.

(** [name = None]: ordinary text; [name = Some acc]: inside [\g<...].
    A name that is not a number raises ([re.error] for a malformed name,
    [IndexError] for an unknown one: the two are not told apart here). *)
Fixpoint parse_tokens (name : option (list token)) (toks : list token)
    {struct toks} : result (list part) :=
  match name with
  | Some acc =>
      match toks with
      | [] => Raise re_error
      | TChar c :: rest =>
          if (c =? 62)%N then            (* '>' *)
            match acc with
            | [] => Raise re_error
            | _ :: _ =>
                match group_number 0%N acc with
                | Some 0%N => ps <-! parse_tokens None rest; Ok (Group0 :: ps)
                | _ => Raise re_error
                end
            end
          else parse_tokens (Some (acc ++ [TChar c])) rest
      | TEsc c :: rest => parse_tokens (Some (acc ++ [TEsc c])) rest
      end
  | None =>
      match toks with
      | [] => Ok []
      | TChar c :: rest =>
          ps <-! parse_tokens None rest; Ok (Literal [c] :: ps)
      | TEsc c :: rest =>
          if (c =? 103)%N then           (* \g *)
            match rest with
            | TChar 60%N :: rest' => parse_tokens (Some []) rest'
            | _ => Raise re_error
            end
          else if (c =? 48)%N then       (* \0 and up to two octal digits *)
            match rest with
            | TChar d1 :: rest1 =>
                if is_oct_digit d1 then
                  match rest1 with
                  | TChar d2 :: rest2 =>
                      if is_oct_digit d2 then
                        ps <-! parse_tokens None rest2;
                        Ok (Literal [N.land (8 * digit_val d1 + digit_val d2) 255]
                            :: ps)
                      else ps <-! parse_tokens None rest1;
                           Ok (Literal [digit_val d1] :: ps)
                  | _ => ps <-! parse_tokens None rest1;
                         Ok (Literal [digit_val d1] :: ps)
                  end
                else ps <-! parse_tokens None rest; Ok (Literal [0%N] :: ps)
            | _ => ps <-! parse_tokens None rest; Ok (Literal [0%N] :: ps)
            end
          else if is_ascii_digit c then  (* \1 .. \9: octal escape or group *)
            match rest with
            | TChar d1 :: TChar d2 :: rest2 =>
                if is_ascii_digit d1 && is_oct_digit c && is_oct_digit d1
                   && is_oct_digit d2 then
                  let v := (64 * digit_val c + 8 * digit_val d1 + digit_val d2)%N in
                  if (255 <? v)%N then Raise re_error
                  else ps <-! parse_tokens None rest2; Ok (Literal [v] :: ps)
                else Raise re_error      (* invalid group reference *)
            | _ => Raise re_error        (* invalid group reference *)
            end
          else
            match escapes c with
            | Some e => ps <-! parse_tokens None rest; Ok (Literal [e] :: ps)
            | None =>
                if is_ascii_letter c then Raise re_error
                else ps <-! parse_tokens None rest;
                     Ok (Literal [BACKSLASH; c] :: ps)
            end
      end
  end.

Definition parse_template (template : pystr) : result (list part) :=
  toks <-! tokenize template; parse_tokens None toks.

(** [match.expand]: group 0 is the matched text. *)
Definition expand (parts : list part) (matched : pystr) : pystr :=
  concat (List.map (fun p => match p with
                             | Literal s => s
                             | Group0 => matched
                             end) parts).

(** The text between the matches is kept, every match is replaced by the
    expansion of the template. *)
Fixpoint sub_spans (parts : list part) (text : pystr) (pos : nat)
    (spans : list (nat * nat)) : pystr :=
  match spans with
  | [] => drop pos text
  | (s, e) :: rest =>
      take (s - pos) (drop pos text)
      ++ expand parts (take (e - s) (drop s text))
      ++ sub_spans parts text e rest
  end.

(** [re.sub(re.escape(search), repl, text, flags=re.IGNORECASE)].  A
    replacement without backslash is used as it is; otherwise it is
    compiled as a template before any match is replaced. *)
Definition sub (search repl text : pystr) : result pystr :=
  parts <-! (if existsb (N.eqb BACKSLASH) repl
             then parse_template repl
             else Ok [Literal repl]);
  Ok (sub_spans parts text 0 (finditer false search text)).

(** [re.findall(r'\{\{([^}]+)\}\}', text)] *)
Fixpoint until_rbrace (text : pystr) : pystr * pystr :=
  match text with
  | [] => ([], [])
  | c :: rest =>
      if (c =? RBRACE)%N then ([], text)
      else let '(body, tl) := until_rbrace rest in (c :: body, tl)
  end.

Definition placeholder_here (text : pystr) : option pystr :=
  match text with
  | c1 :: c2 :: t =>
      if ((c1 =? LBRACE) && (c2 =? LBRACE))%N then
        match until_rbrace t with
        | ((_ :: _) as body, d1 :: d2 :: _) =>
            if ((d1 =? RBRACE) && (d2 =? RBRACE))%N then Some body else None
        | _ => None
        end
      else None
  | _ => None
  end.

Fixpoint placeholders_from (skip : nat) (text : pystr) : list pystr :=
  match text with
  | [] => []
  | _ :: rest =>
      match skip with
      | S k => placeholders_from k rest
      | 0 => match placeholder_here text with
             | Some body => body :: placeholders_from (length body + 3) rest
             | None => placeholders_from 0 rest
             end
      end
  end.

Definition findall_placeholders (text : pystr) : list pystr :=
  placeholders_from 0 text.

End Re.

(** ** The document model (python-docx as the code sees it) *)

Module Docx.

(** [run.underline] is [None], [True], [False] or a member of
    [WD_UNDERLINE]. *)
Inductive Underline :=
  | UBool (b : bool)
  | UMember (value : Z).

Record RGBColor := { red : N; green : N; blue : N }.

(** The dictionary built by [_extract_run_formatting]; the same six
    properties are what a run carries. *)
Record Formatting := {
  bold : option bool;
  italic : option bool;
  underline : option Underline;
  font_name : option pystr;
  font_size : option Z;
  font_color : option RGBColor
}.

#[global] Instance Underline_eq_dec : EqDecision Underline.
Proof. solve_decision. Defined.
#[global] Instance RGBColor_eq_dec : EqDecision RGBColor.
Proof. solve_decision. Defined.
#[global] Instance Formatting_eq_dec : EqDecision Formatting.
Proof. solve_decision. Defined.

(** The formatting of a run created by [paragraph.add_run(text)]. *)
Definition default_formatting : Formatting :=
  {| bold := None; italic := None; underline := None;
     font_name := None; font_size := None; font_color := None |}.

Record Run := {
  run_text : pystr;
  props : Formatting
}.

(** A paragraph: its runs, the name of its style and its layout
    ([paragraph_format]); lengths are in EMU. *)
Record Paragraph := {
  runs : list Run;
  style : option pystr;
  left_indent : option Z;
  first_line_indent : option Z;
  space_after : option Z;
  line_spacing : option Q
}.

Definition set_runs (p : Paragraph) (rs : list Run) : Paragraph :=
  {| runs := rs; style := style p; left_indent := left_indent p;
     first_line_indent := first_line_indent p;
     space_after := space_after p; line_spacing := line_spacing p |}.

(** [paragraph.text] *)
Definition paragraph_text (p : Paragraph) : pystr :=
  concat (List.map run_text (runs p)).

(** [paragraph.clear()] keeps the paragraph-level properties. *)
Definition clear (p : Paragraph) : Paragraph := set_runs p [].

(** [paragraph.add_run(text)] followed by [update] on the new run. *)
Definition add_run_with (p : Paragraph) (text : pystr) (update : Run -> Run)
    : Paragraph :=
  set_runs p (runs p ++ [update {| run_text := text; props := default_formatting |}]).

Definition add_run (p : Paragraph) (text : pystr) : Paragraph :=
  add_run_with p text (fun r => r).

(** [document.add_paragraph()] creates this paragraph. *)
Definition empty_paragraph : Paragraph :=
  {| runs := []; style := None; left_indent := None;
     first_line_indent := None; space_after := None; line_spacing := None |}.

(** A table is its rows, a row its cells, a cell its paragraphs. *)
Definition Cell := list Paragraph.
Definition Row := list Cell.
Definition Table := list Row.

(** The children of the document body, in document order. *)
Inductive Block :=
  | BlockP (p : Paragraph)
  | BlockT (t : Table).

Record Document := {
  body : list Block;
  style_names : list pystr
}.

Definition set_body (d : Document) (b : list Block) : Document :=
  {| body := b; style_names := style_names d |}.

(** [document.paragraphs] and [document.tables] *)
Definition block_paragraphs (b : Block) : list Paragraph :=
  match b with
  | BlockP p => [p]
  | BlockT _ => []
  end.

Definition block_tables (b : Block) : list Table :=
  match b with
  | BlockT t => [t]
  | BlockP _ => []
  end.

Definition paragraphs (d : Document) : list Paragraph :=
  flat_map block_paragraphs (body d).

Definition tables (d : Document) : list Table :=
  flat_map block_tables (body d).

(** The paragraphs of a table: row by row, cell by cell. *)
Definition row_paragraphs (r : Row) : list Paragraph := flat_map id r.
Definition table_paragraphs (t : Table) : list Paragraph :=
  flat_map row_paragraphs t.

(** Every paragraph in the order of [find_and_replace_text]: the
    top-level ones, then those of the tables. *)
Definition visited_paragraphs (d : Document) : list Paragraph :=
  paragraphs d ++ flat_map table_paragraphs (tables d).

(** *** class DocxProcessor *)

Record DocxProcessor := {
  document : option Document
}.

Definition loaded (d : Document) : DocxProcessor := {| document := Some d |}.

(** One element of [char_to_run_map].  The keys ['run'] and ['position']
    of the source dictionaries are written and never read; they are left
    out. *)
Record CharEntry := {
  ch : char;
  formatting : Formatting
}.

Definition _extract_run_formatting (run : Run) : Formatting :=
  {| bold := bold (props run);
     italic := italic (props run);
     underline := underline (props run);
     font_name := font_name (props run);
     font_size := font_size (props run);
     font_color := match font_color (props run) with
                   | Some rgb => Some rgb   (* a colour is a non-empty tuple *)
                   | None => None
                   end |}.

Definition _apply_run_formatting (run : Run) (f : Formatting) : Run :=
  {| run_text := run_text run;
     props :=
       {| bold := match bold f with
                  | Some b => Some b
                  | None => bold (props run)
                  end;
          italic := match italic f with
                    | Some b => Some b
                    | None => italic (props run)
                    end;
          underline := match underline f with
                       | Some u => Some u
                       | None => underline (props run)
                       end;
          font_name := match font_name f with
                       | Some ((_ :: _) as name) => Some name
                       | _ => font_name (props run)
                       end;
          font_size := match font_size f with
                       | Some size => if (size =? 0)%Z
                                      then font_size (props run)
                                      else Some size
                       | None => font_size (props run)
                       end;
          font_color := match font_color f with
                        | Some rgb => Some rgb
                        | None => font_color (props run)
                        end |} |}.

Definition LIST_PARAGRAPH : pystr := str "List Paragraph".

(** [Inches(0.5)], [Inches(-0.25)], [Pt(3)] in EMU, and the line spacing 1.15 *)
Definition _apply_bullet_formatting (d : Document) (p : Paragraph) : Paragraph :=
  {| runs := runs p;
     style := if decide (LIST_PARAGRAPH ∈ style_names d)
              then Some LIST_PARAGRAPH
              else style p;
     left_indent := Some 457200%Z;
     first_line_indent := Some (-228600)%Z;
     space_after := Some 38100%Z;
     line_spacing := Some (Qmake 115 100) |}.

(** The loop of [_rebuild_paragraph_with_formatting] over the map. *)
Fixpoint rebuild_loop (paragraph : Paragraph) (current_text : pystr)
    (current_formatting : Formatting) (items : list CharEntry) : Paragraph :=
  match items with
  | [] =>
      match current_text with
      | _ :: _ => add_run_with paragraph current_text
                    (fun r => _apply_run_formatting r current_formatting)
      | [] => paragraph
      end
  | item :: rest =>
      if decide (formatting item = current_formatting)
      then rebuild_loop paragraph (current_text ++ [ch item])
             current_formatting rest
      else
        let paragraph' :=
          match current_text with
          | _ :: _ => add_run_with paragraph current_text
                        (fun r => _apply_run_formatting r current_formatting)
          | [] => paragraph
          end in
        rebuild_loop paragraph' [ch item] (formatting item) rest
  end.

Definition _rebuild_paragraph_with_formatting (paragraph : Paragraph)
    (char_to_run_map : list CharEntry) : Paragraph :=
  let paragraph := clear paragraph in
  match char_to_run_map with
  | [] => paragraph
  | first :: _ => rebuild_loop paragraph [] (formatting first) char_to_run_map
  end.

(** The character map of a paragraph. *)
Definition build_char_map (paragraph : Paragraph) : list CharEntry :=
  flat_map (fun run =>
      List.map (fun c => {| ch := c; formatting := _extract_run_formatting run |})
        (run_text run))
    (runs paragraph).

(** The loop over [reversed(matches)]: [char_to_run_map[start_pos]] raises
    [IndexError] out of range, the slice assignment replaces the span. *)
Fixpoint splice_loop (replace_text : pystr) (rev_matches : list (nat * nat))
    (char_to_run_map : list CharEntry) (replacements_made : nat)
    : result (list CharEntry * nat) :=
  match rev_matches with
  | [] => Ok (char_to_run_map, replacements_made)
  | (start_pos, end_pos) :: rest =>
      match char_to_run_map !! start_pos with
      | None => Raise IndexError
      | Some first =>
          let new_chars :=
            List.map (fun c => {| ch := c; formatting := formatting first |})
              replace_text in
          splice_loop replace_text rest
            (take start_pos char_to_run_map ++ new_chars
             ++ drop end_pos char_to_run_map)
            (S replacements_made)
      end
  end.

Definition _replace_with_formatting_preservation (paragraph : Paragraph)
    (search_text replace_text : pystr) (case_sensitive : bool)
    : result (Paragraph * nat) :=
  let char_to_run_map := build_char_map paragraph in
  let full_text := List.map ch char_to_run_map in
  let matches := Re.finditer case_sensitive search_text full_text in
  match matches with
  | [] => Ok (paragraph, 0)
  | _ :: _ =>
      spliced <-! splice_loop replace_text (rev matches) char_to_run_map 0;
      let (char_to_run_map, replacements_made) := spliced in
      Ok (if 0 <? replacements_made
          then _rebuild_paragraph_with_formatting paragraph char_to_run_map
          else paragraph,
          replacements_made)
  end.

Definition _replace_text_in_paragraph (paragraph : Paragraph)
    (search_text replace_text : pystr) (preserve_formatting case_sensitive : bool)
    : result (Paragraph * nat) :=
  match runs paragraph with
  | [] => Ok (paragraph, 0)
  | _ :: _ =>
      let full_text := paragraph_text paragraph in
      let found :=
        if case_sensitive then contains search_text full_text
        else contains (lower search_text) (lower full_text) in
      if negb found then Ok (paragraph, 0)
      else if preserve_formatting then
        _replace_with_formatting_preservation paragraph search_text
          replace_text case_sensitive
      else
        new_text <-! (if case_sensitive
                      then Ok (replace full_text search_text replace_text)
                      else Re.sub search_text replace_text full_text);
        if decide (new_text <> full_text)
        then Ok (add_run (clear paragraph) new_text,
                 if case_sensitive then count full_text search_text
                 else Re.findall_count search_text full_text)
        else Ok (paragraph, 0)
  end.

(** A [for] loop that mutates the elements of [l] in place and adds up
    what the body returns; when the body raises, the elements already
    visited keep their new state and the others are not visited. *)
Fixpoint for_each {A} (f : A -> A * result nat) (l : list A)
    : list A * result nat :=
  match l with
  | [] => ([], Ok 0)
  | x :: rest =>
      let (x', r) := f x in
      match r with
      | Raise e => (x' :: rest, Raise e)
      | Ok n =>
          let (rest', r') := for_each f rest in
          (x' :: rest', m <-! r'; Ok (n + m))
      end
  end.

(** A paragraph-level call that raises leaves its paragraph as it was. *)
Definition in_place (f : Paragraph -> result (Paragraph * nat))
    (p : Paragraph) : Paragraph * result nat :=
  match f p with
  | Ok (p', n) => (p', Ok n)
  | Raise e => (p, Raise e)
  end.

Definition on_paragraph (f : Paragraph -> Paragraph * result nat) (b : Block)
    : Block * result nat :=
  match b with
  | BlockP p => let (p', r) := f p in (BlockP p', r)
  | BlockT _ => (b, Ok 0)
  end.

Definition on_table (f : Table -> Table * result nat) (b : Block)
    : Block * result nat :=
  match b with
  | BlockT t => let (t', r) := f t in (BlockT t', r)
  | BlockP _ => (b, Ok 0)
  end.

Definition find_and_replace_text (self : DocxProcessor)
    (search_text replace_text : pystr) (preserve_formatting case_sensitive : bool)
    : DocxProcessor * result nat :=
  match document self with
  | None => (self, Raise EditOperationError)
  | Some d =>
      let replace_in := in_place (fun paragraph =>
        _replace_text_in_paragraph paragraph search_text replace_text
          preserve_formatting case_sensitive) in
      let (body1, r1) := for_each (on_paragraph replace_in) (body d) in
      match r1 with
      | Raise _ => (loaded (set_body d body1), Raise EditOperationError)
      | Ok n1 =>
          let (body2, r2) :=
            for_each (on_table (for_each (for_each (for_each replace_in))))
              body1 in
          match r2 with
          | Raise _ => (loaded (set_body d body2), Raise EditOperationError)
          | Ok n2 => (loaded (set_body d body2), Ok (n1 + n2))
          end
      end
  end.

(** [get_document_text] *)
Definition get_document_text (self : DocxProcessor) : pystr :=
  match document self with
  | None => []
  | Some d => join [NEWLINE] (List.map paragraph_text (paragraphs d))
  end.

(** [_find_template_bullet_formatting]: the formatting of the first run of
    the first template bullet paragraph. *)
Definition TEMPLATE_MARK : pystr := str "add highlights with this style".

Fixpoint find_template (ps : list Paragraph) : option Formatting :=
  match ps with
  | [] => None
  | paragraph :: rest =>
      let paragraph_text := strip (paragraph_text paragraph) in
      if startswith paragraph_text [BULLET]
         && contains TEMPLATE_MARK (lower paragraph_text)
      then match runs paragraph with
           | run :: _ => Some (_extract_run_formatting run)
           | [] => find_template rest
           end
      else find_template rest
  end.

Definition _find_template_bullet_formatting (d : Document) : option Formatting :=
  find_template (paragraphs d).

(** The first top-level paragraph whose text contains [search_text], with
    its index among the children of the body. *)
Fixpoint first_containing (search_text : pystr) (blocks : list Block)
    (index : nat) : option (nat * Paragraph) :=
  match blocks with
  | [] => None
  | BlockP paragraph :: rest =>
      if contains search_text (paragraph_text paragraph)
      then Some (index, paragraph)
      else first_containing search_text rest (S index)
  | BlockT _ :: rest => first_containing search_text rest (S index)
  end.

(** [parent_element.insert(index, element)] *)
Definition insert_at {A} (index : nat) (x : A) (l : list A) : list A :=
  take index l ++ x :: drop index l.

(** The text of a bullet: ["• " + item] *)
Definition bullet_text (item : pystr) : pystr := BULLET :: 32%N :: item.

(** The paragraph made for one of [bullet_items[1:]]. *)
Definition new_bullet_paragraph (d : Document) (template : option Formatting)
    (item : pystr) : Paragraph :=
  let new_paragraph :=
    add_run_with empty_paragraph (bullet_text item)
      (fun bullet_run => match template with
                         | Some template_bullet_style =>
                             _apply_run_formatting bullet_run template_bullet_style
                         | None => bullet_run
                         end) in
  _apply_bullet_formatting d new_paragraph.

(** The loop over [enumerate(bullet_items[1:], 1)].  The new paragraph is
    appended to the body by [add_paragraph] and moved at once by [insert]:
    it ends at [paragraph_index + i]. *)
Fixpoint insert_bullets (d : Document) (template : option Formatting)
    (paragraph_index i : nat) (items : list pystr) (blocks : list Block)
    : list Block :=
  match items with
  | [] => blocks
  | item :: rest =>
      insert_bullets d template paragraph_index (S i) rest
        (insert_at (paragraph_index + i)
           (BlockP (new_bullet_paragraph d template item)) blocks)
  end.

Definition replace_with_bullet_points (self : DocxProcessor)
    (search_text : pystr) (bullet_items : list pystr)
    (preserve_formatting : bool) : DocxProcessor * result nat :=
  match document self, bullet_items with
  | None, _ => (self, Ok 0)
  | _, [] => (self, Ok 0)
  | Some d, first_item :: others =>
      let template_bullet_style := _find_template_bullet_formatting d in
      match first_containing search_text (body d) 0 with
      | None => (self, Ok 0)
      | Some (paragraph_index, paragraph) =>
          if (find (paragraph_text paragraph) search_text =? -1)%Z
          then (self, Ok 0)
          else
            match _replace_with_formatting_preservation paragraph search_text
                    (bullet_text first_item) false with
            | Raise e => (self, Raise e)
            | Ok (paragraph', count) =>
                if 0 <? count then
                  let paragraph' := _apply_bullet_formatting d paragraph' in
                  let blocks := <[paragraph_index := BlockP paragraph']> (body d) in
                  (loaded (set_body d
                     (insert_bullets d template_bullet_style paragraph_index 1
                        others blocks)),
                   Ok count)
                else
                  (loaded (set_body d
                     (<[paragraph_index := BlockP paragraph']> (body d))),
                   Ok 0)
            end
      end
  end.

End Docx.

(** ** class ResumeProcessor: placeholders and the data tree *)

Module Resume.
Import Docx.

(** A value decoded from JSON.  [DNone] is Python's [None]: a JSON [null],
    and also what the resolver returns when there is nothing at a path. *)
#[warnings="-register-all"] Inductive DataTree :=
  | DNone
  | DBool (b : bool)
  | DInt (z : Z)
  | DFloat (q : Q)
  | DStr (s : pystr)
  | DList (items : list DataTree)
  | DDict (entries : list (pystr * DataTree)).

(** [key in value] and [value[key]] on a dictionary *)
Fixpoint dict_get (entries : list (pystr * DataTree)) (key : pystr)
    : option DataTree :=
  match entries with
  | [] => None
  | (k, v) :: rest => if decide (k = key) then Some v else dict_get rest key
  end.

(** [not value]: the truth value of a Python object *)
Definition falsy (v : DataTree) : bool :=
  match v with
  | DNone => true
  | DBool b => negb b
  | DInt z => (z =? 0)%Z
  | DFloat q => (Qnum q =? 0)%Z
  | DStr s => match s with [] => true | _ => false end
  | DList l => match l with [] => true | _ => false end
  | DDict m => match m with [] => true | _ => false end
  end.

Record ResumeProcessor := {
  processor : DocxProcessor;
  resume_data : option DataTree
}.

(** The counters returned by [apply_json_template_replacement]. *)
Definition initial_counts : gmap string nat :=
  {[ "basic_fields"%string := 0; "contact_fields"%string := 0;
     "technical_skills"%string := 0; "professional_experience"%string := 0;
     "projects"%string := 0; "education"%string := 0;
     "total_replacements"%string := 0 ]}.

(** [counts[key] += n] *)
Definition add_count (key : string) (n : nat) (counts : gmap string nat)
    : gmap string nat :=
  <[key := default 0 (counts !! key) + n]> counts.

(** [_get_default_short_mappings] *)
Definition _get_default_short_mappings : gmap pystr pystr :=
  list_to_map
    [ (str "{{NAME}}", str "name");
      (str "{{name}}", str "name");
      (str "{{professional_summary}}", str "professional_summary");
      (str "{{PROFESSIONAL_SUMMARY}}", str "professional_summary");
      (str "{{TECHNICAL_SKILLS}}", str "technical_skills");
      (str "{{technical_skills}}", str "technical_skills");
      (str "{{highlights1}}", str "highlights1");
      (str "{{highlights2}}", str "highlights2");
      (str "{{highlights3}}", str "highlights3");
      (str "{{projects1}}", str "projects1");
      (str "{{projects2}}", str "projects2");
      (str "{{project1_highlights}}", str "project1_highlights");
      (str "{{project2_highlights}}", str "project2_highlights");
      (str "{{education}}", str "education") ].

(** [_categorize_placeholder] *)
Definition _categorize_placeholder (placeholder_key : pystr) : string :=
  let key_lower := lower placeholder_key in
  if existsb (fun term => contains term key_lower)
       [str "contact"; str "phone"; str "email"; str "linkedin"]
  then "contact_fields"
  else if contains (str "technical_skills") key_lower then "technical_skills"
  else if contains (str "professional_experience") key_lower
  then "professional_experience"
  else if contains (str "project") key_lower then "projects"
  else if contains (str "education") key_lower then "education"
  else "basic_fields".

(** [any(term in placeholder_key.lower() for term in
    ['highlights', 'responsibilities'])] *)
Definition is_itemized (placeholder_key : pystr) : bool :=
  existsb (fun term => contains term (lower placeholder_key))
    [str "highlights"; str "responsibilities"].

Section Builtins.

(** Three built-ins of Python are left open: [c.isdigit()] on a character,
    [int(s)] ([None] when it raises [ValueError]) and [str(v)] on a value
    that is not a string. *)
Variable isdigit_char : char -> bool.
Variable int : pystr -> option nat.
Variable repr : DataTree -> pystr.

(** [s.isdigit()] *)
Definition isdigit (s : pystr) : bool :=
  match s with
  | [] => false
  | _ :: _ => forallb isdigit_char s
  end.

(** [str(value)] *)
Definition py_str (value : DataTree) : pystr :=
  match value with
  | DStr s => s
  | other => repr other
  end.

(** The loop of [_get_nested_json_value] over the keys. *)
Fixpoint nested_loop (value : DataTree) (keys : list pystr) : result DataTree :=
  match keys with
  | [] => Ok value
  | key :: rest =>
      if isdigit key then
        match value with
        | DList items =>
            match int key with
            | None => Raise ValueError
            | Some index =>
                if index <? length items then
                  match items !! index with
                  | Some item => nested_loop item rest
                  | None => Raise IndexError
                  end
                else Ok DNone
            end
        | _ => Ok DNone
        end
      else
        match value with
        | DDict entries =>
            match dict_get entries key with
            | Some item => nested_loop item rest
            | None => Ok DNone
            end
        | _ => Ok DNone
        end
  end.

(** [try: ... except (KeyError, IndexError, TypeError, ValueError):
    return None] *)
Definition _get_nested_json_value (data : DataTree) (path : pystr)
    : result DataTree :=
  match nested_loop data (split DOT path) with
  | Ok value => Ok value
  | Raise IndexError => Ok DNone
  | Raise ValueError => Ok DNone
  | Raise e => Raise e
  end.

(** [_format_json_value] *)
Definition _format_json_value (value : DataTree) (placeholder_key : pystr)
    : pystr :=
  match value with
  | DList items =>
      if contains (str "technical_skills") (lower placeholder_key)
      then join (str ", ") (List.map py_str items)
      else if is_itemized placeholder_key
      then match items with
           | [] => []
           | _ :: _ =>
               join [NEWLINE] (List.map (fun item => bullet_text (py_str item)) items)
           end
      else join (str ", ") (List.map py_str items)
  | other => py_str other
  end.

(** The placeholders that [apply_json_template_replacement] iterates
    over: [re.findall(placeholder_pattern, self.get_document_text())]. *)
Definition discovered_placeholders (self : ResumeProcessor) : list pystr :=
  Re.findall_placeholders (get_document_text (processor self)).

(** The value of a placeholder: through the mapping table when the key is
    in it, else with the key as a path. *)
Definition placeholder_value (data : DataTree) (all_mappings : gmap pystr pystr)
    (placeholder_key : pystr) : result DataTree :=
  match all_mappings !! placeholder_key with
  | Some json_path => _get_nested_json_value data json_path
  | None => _get_nested_json_value data placeholder_key
  end.

(** One iteration of the loop over the placeholders. *)
Definition replace_placeholder (data : DataTree) (all_mappings : gmap pystr pystr)
    (state : DocxProcessor * gmap string nat) (placeholder : pystr)
    : (DocxProcessor * gmap string nat) * result unit :=
  let (doc, replacements_made) := state in
  let placeholder_key := strip placeholder in
  match placeholder_value data all_mappings placeholder_key with
  | Raise e => (state, Raise e)
  | Ok DNone => (state, Ok tt)
  | Ok replacement_value =>
      let full_placeholder := str "{{" ++ placeholder ++ str "}}" in
      let (doc', r) :=
        match replacement_value with
        | DList items =>
            if is_itemized placeholder_key
            then replace_with_bullet_points doc full_placeholder
                   (List.map py_str items) true
            else find_and_replace_text doc full_placeholder
                   (_format_json_value replacement_value placeholder_key)
                   true false
        | _ => find_and_replace_text doc full_placeholder
                 (_format_json_value replacement_value placeholder_key)
                 true false
        end in
      match r with
      | Raise e => ((doc', replacements_made), Raise e)
      | Ok count =>
          if 0 <? count then
            let category := _categorize_placeholder placeholder_key in
            ((doc', add_count "total_replacements" count
                      (add_count category count replacements_made)), Ok tt)
          else ((doc', replacements_made), Ok tt)
      end
  end.

Fixpoint template_loop (data : DataTree) (all_mappings : gmap pystr pystr)
    (state : DocxProcessor * gmap string nat) (placeholders : list pystr)
    : (DocxProcessor * gmap string nat) * result unit :=
  match placeholders with
  | [] => (state, Ok tt)
  | placeholder :: rest =>
      match replace_placeholder data all_mappings state placeholder with
      | (state', Ok _) => template_loop data all_mappings state' rest
      | (state', Raise e) => (state', Raise e)
      end
  end.

(** [apply_json_template_replacement]: the document after the loop over
    the placeholders and the counters returned.  The call of
    [_apply_bullet_formatting_to_document] that ends the source function
    lays out bullet paragraphs again and does not touch the counters; it is
    not part of this model. *)
Definition apply_json_template_replacement (self : ResumeProcessor)
    (custom_mappings : option (gmap pystr pystr))
    : ResumeProcessor * result (gmap string nat) :=
  match resume_data self with
  | None => (self, Raise EditOperationError)
  | Some data =>
      if falsy data then (self, Raise EditOperationError)
      else
        let placeholders := discovered_placeholders self in
        let default_mappings := _get_default_short_mappings in
        let all_mappings :=
          match custom_mappings with
          | Some custom => if decide (custom = ∅) then default_mappings
                           else custom ∪ default_mappings
          | None => default_mappings
          end in
        match template_loop data all_mappings (processor self, initial_counts)
                placeholders with
        | ((doc, counts), r) =>
            ({| processor := doc; resume_data := resume_data self |},
             _ <-! r; Ok counts)
        end
  end.

End Builtins.

End Resume.

(** ** The notions of the specification *)

Module Spec.
Import Docx.

(** [m] is an occurrence of [search], exactly or modulo case. *)
Definition matches (case_sensitive : bool) (search m : pystr) : Prop :=
  if case_sensitive then m = search else lower m = lower search.

(** An occurrence of [search] starts [text]. *)
Definition occurs_at (case_sensitive : bool) (search text : pystr) : Prop :=
  exists m rest, text = m ++ rest /\ matches case_sensitive search m.

(** [Subst cs search repl text n r]: reading [text] from left to right,
    [n] occurrences of [search] (exact when [cs] is true, modulo case
    otherwise) that do not overlap are met, and [r] is [text] with each
    of them replaced by [repl]. *)
Inductive Subst (case_sensitive : bool) (search repl : pystr)
    : pystr -> nat -> pystr -> Prop :=
  | Subst_end : Subst case_sensitive search repl [] 0 []
  | Subst_occurrence m rest n r :
      matches case_sensitive search m ->
      Subst case_sensitive search repl rest n r ->
      Subst case_sensitive search repl (m ++ rest) (S n) (repl ++ r)
  | Subst_other c rest n r :
      ~ occurs_at case_sensitive search (c :: rest) ->
      Subst case_sensitive search repl rest n r ->
      Subst case_sensitive search repl (c :: rest) n (c :: r).

(** What a paragraph adds to the count of [find_and_replace_text]: with
    [preserve_formatting] its occurrences; without, its occurrences when
    the substitution changes its text and nothing when it does not. *)
Definition counted (preserve_formatting : bool) (text : pystr) (n : nat)
    (r : pystr) : nat :=
  if preserve_formatting then n
  else if decide (r = text) then 0 else n.

(** The same over the texts of the paragraphs of a document, in the order
    in which they are visited. *)
Inductive DocSubst (case_sensitive : bool) (search repl : pystr)
    (preserve_formatting : bool) : list pystr -> nat -> list pystr -> Prop :=
  | DocSubst_nil :
      DocSubst case_sensitive search repl preserve_formatting [] 0 []
  | DocSubst_cons text n r texts m rs :
      Subst case_sensitive search repl text n r ->
      DocSubst case_sensitive search repl preserve_formatting texts m rs ->
      DocSubst case_sensitive search repl preserve_formatting (text :: texts)
        (counted preserve_formatting text n r + m) (r :: rs).

(** The texts of the paragraphs of a document, in the order in which
    they are visited. *)
Definition texts (d : Document) : list pystr :=
  List.map paragraph_text (visited_paragraphs d).

(** The characters of [s], all with the formatting [f]. *)
Definition tagged (f : Formatting) (s : pystr) : list CharEntry :=
  List.map (fun c => {| ch := c; formatting := f |}) s.

(** The substitution on a character map: the characters that replace an
    occurrence take the formatting of its first character, the others
    keep their own. *)
Inductive Substituted (case_sensitive : bool) (search repl : pystr)
    : list CharEntry -> nat -> list CharEntry -> Prop :=
  | Substituted_end : Substituted case_sensitive search repl [] 0 []
  | Substituted_occurrence first span rest n rest' :
      matches case_sensitive search (List.map ch (first :: span)) ->
      Substituted case_sensitive search repl rest n rest' ->
      Substituted case_sensitive search repl (first :: span ++ rest) (S n)
        (tagged (formatting first) repl ++ rest')
  | Substituted_other e rest n rest' :
      ~ occurs_at case_sensitive search (List.map ch (e :: rest)) ->
      Substituted case_sensitive search repl rest n rest' ->
      Substituted case_sensitive search repl (e :: rest) n (e :: rest').

(** The formatting read from a run made by [add_run] to which
    [_apply_run_formatting] has written [f]. *)
Definition written_back (f : Formatting) : Formatting :=
  _extract_run_formatting
    (_apply_run_formatting {| run_text := []; props := default_formatting |} f).

Definition rewritten (e : CharEntry) : CharEntry :=
  {| ch := ch e; formatting := written_back (formatting e) |}.

(** A formatting that [_apply_run_formatting] writes in full: its font
    name is not the empty string and its font size is not zero. *)
Definition plain_values (f : Formatting) : Prop :=
  font_name f <> Some [] /\ font_size f <> Some 0%Z.

(** The run that the rebuilder makes for [text] with the formatting [f]. *)
Definition rebuilt_run (text : pystr) (f : Formatting) : Run :=
  _apply_run_formatting {| run_text := text; props := default_formatting |} f.

#[global] Instance Run_eq_dec : EqDecision Run.
Proof. solve_decision. Defined.

(** The characters of the span [(start, end)] all have the formatting of
    the character at [start]. *)
Definition uniform_span (cm : list CharEntry) (span : nat * nat) : bool :=
  match cm !! span.1 with
  | Some first =>
      forallb (fun e => bool_decide (formatting e = formatting first))
        (take (span.2 - span.1) (drop span.1 cm))
  | None => true
  end.

(** Every occurrence of [search] in the paragraph is uniformly formatted. *)
Definition uniform_matches (search : pystr) (p : Paragraph) : bool :=
  forallb (uniform_span (build_char_map p))
    (Re.finditer true search (paragraph_text p)).

(** The runs are such as the rebuilder makes them: none is empty, two
    neighbours differ in formatting, and each is what
    [_apply_run_formatting] writes for its own formatting. *)
Fixpoint coalesced_from (prev : option Formatting) (rs : list Run) : bool :=
  match rs with
  | [] => true
  | r :: rest =>
      match run_text r with [] => false | _ :: _ => true end
      && bool_decide (Some (_extract_run_formatting r) <> prev)
      && bool_decide (rebuilt_run (run_text r) (_extract_run_formatting r) = r)
      && coalesced_from (Some (_extract_run_formatting r)) rest
  end.

Definition coalesced (p : Paragraph) : bool := coalesced_from None (runs p).

(** The layout that [_apply_bullet_formatting] gives to a paragraph. *)
Definition bullet_layout (p : Paragraph) : Prop :=
  left_indent p = Some 457200%Z
  /\ first_line_indent p = Some (-228600)%Z
  /\ space_after p = Some 38100%Z
  /\ line_spacing p = Some (Qmake 115 100).

(** The block is not a paragraph whose text contains [search]. *)
Definition without_token (search : pystr) (b : Block) : Prop :=
  match b with
  | BlockP p => contains search (paragraph_text p) = false
  | BlockT _ => True
  end.

(** The grammar of a placeholder: two opening braces, a non-empty body
    without closing brace, two closing braces. *)
Definition token (body : pystr) : pystr :=
  [LBRACE; LBRACE] ++ body ++ [RBRACE; RBRACE].

Definition token_starts (text : pystr) : Prop :=
  exists body rest, body <> [] /\ (RBRACE ∉ body) /\ text = token body ++ rest.

(** [Tokens text bodies]: reading [text] from left to right, the
    placeholders met, which do not overlap, have the bodies [bodies] in
    this order; a body is listed once for each of its occurrences. *)
Inductive Tokens : pystr -> list pystr -> Prop :=
  | Tokens_end : Tokens [] []
  | Tokens_token body rest bodies :
      body <> [] -> RBRACE ∉ body ->
      Tokens rest bodies ->
      Tokens (token body ++ rest) (body :: bodies)
  | Tokens_other c rest bodies :
      ~ token_starts (c :: rest) ->
      Tokens rest bodies ->
      Tokens (c :: rest) bodies.

(** The distinct elements of a list in the order of their first
    occurrence. *)
Fixpoint distinct (seen : list pystr) (l : list pystr) : list pystr :=
  match l with
  | [] => []
  | x :: rest =>
      if decide (x ∈ seen) then distinct seen rest
      else x :: distinct (x :: seen) rest
  end.

(** The test that guards a paragraph in [_replace_text_in_paragraph]. *)
Definition found (cs : bool) (search text : pystr) : bool :=
  if cs then contains search text else contains (lower search) (lower text).

(** The entries that a run gives to the character map. *)
Definition entries (r : Run) : list CharEntry :=
  tagged (_extract_run_formatting r) (run_text r).

(** [F] on a container does what the flat loop [for_each g] does on the
    paragraphs of the container. *)
Definition refines {A} (F : A -> A * result nat) (paras : A -> list Paragraph)
    (g : Paragraph -> Paragraph * result nat) : Prop :=
  forall x, (paras (F x).1, (F x).2) = for_each g (paras x).

(** At the end of [find_and_replace_text] every exception becomes
    [EditOperationError]. *)
Definition wrapped (r : result nat) : result nat :=
  match r with
  | Ok n => Ok n
  | Raise _ => Raise EditOperationError
  end.

End Spec.


Module ResolveSpec.
Import Resume.

Section Resolve.

Variable isdigit_char : char -> bool.
Variable int : pystr -> option nat.

(** One segment of a path, in the words of the specification: an integer
    literal indexes a list, any other segment is a key of a mapping;
    [None] is Absent. *)
Definition resolve_segment (node : DataTree) (segment : pystr)
    : option DataTree :=
  if isdigit isdigit_char segment then
    match node with
    | DList items => index ← int segment; items !! index
    | _ => None
    end
  else
    match node with
    | DDict entries => dict_get entries segment
    | _ => None
    end.

Fixpoint resolve_path (node : DataTree) (segments : list pystr)
    : option DataTree :=
  match segments with
  | [] => Some node
  | segment :: rest =>
      node' ← resolve_segment node segment; resolve_path node' rest
  end.

Definition resolve (tree : DataTree) (path : pystr) : option DataTree :=
  resolve_path tree (split DOT path).

End Resolve.

(** The value is a list for a placeholder of highlights or
    responsibilities: it is expanded into bullets. *)
Definition bulleted (value : DataTree) (placeholder_key : pystr) : bool :=
  match value with
  | DList _ => is_itemized placeholder_key
  | _ => false
  end.

End ResolveSpec.

(** ** Sample documents *)

Module Examples.
Import Docx Resume.

Definition plain_run (s : string) : Run :=
  {| run_text := str s; props := default_formatting |}.

Definition bold_formatting : Formatting :=
  {| bold := Some true; italic := None; underline := None;
     font_name := None; font_size := None; font_color := None |}.

Definition bold_run (s : string) : Run := {| run_text := str s; props := bold_formatting |}.

Definition paragraph_of (rs : list Run) : Paragraph := set_runs empty_paragraph rs.

Definition plain (s : string) : Paragraph := paragraph_of [plain_run s].

Definition document_of (blocks : list Block) : Document :=
  {| body := blocks; style_names := [] |}.

(** ["a BOLD b"] with the word in bold, and a table cell. *)
Definition bold_paragraph : Paragraph :=
  paragraph_of [plain_run "a "; bold_run "BOLD"; plain_run " b"].

Definition bold_document : Document :=
  document_of [BlockP bold_paragraph; BlockT [[[plain "BOLD BOLD"]]]].

(** One paragraph ["a"]. *)
Definition letter_document : Document := document_of [BlockP (plain "a")].

(** A run whose font name is the empty string. *)
Definition unnamed_font : Formatting :=
  {| bold := None; italic := None; underline := None;
     font_name := Some []; font_size := None; font_color := None |}.

Definition unnamed_paragraph : Paragraph :=
  paragraph_of [{| run_text := str "a"; props := unnamed_font |}].

(** ["ab"] in bold followed by ["cd"]. *)
Definition straddled_paragraph : Paragraph :=
  paragraph_of [bold_run "ab"; plain_run "cd"].

(** A paragraph without run, then ["ab"] and ["cd"]. *)
Definition three_paragraphs : Document :=
  document_of [BlockP empty_paragraph; BlockP (plain "ab"); BlockP (plain "cd")].

(** Paragraphs for a replacement that is not a valid template. *)
Definition template_document : Document :=
  document_of [BlockP (plain "abc"); BlockP (plain "x"); BlockP (plain "yx")].

(** A placeholder for a list of highlights. *)
Definition highlights_document : Document :=
  document_of [BlockP (plain "{{highlights1}}"); BlockP (plain "end")].

(** A placeholder twice at top level and another one in a table cell. *)
Definition tokens_document : Document :=
  document_of [BlockP (plain "{{a}} {{a}}"); BlockT [[[plain "{{b}}"]]]].

(** The same placeholder in two spellings, and a data tree. *)
Definition names_document : Document :=
  document_of [BlockP (plain "{{name}} {{NAME}}")].

Definition alias_document : Document :=
  document_of [BlockP (plain "{{FullName}}")].

Definition sample_tree : DataTree :=
  DDict [(str "name", DStr (str "Bob"));
         (str "contact", DDict [(str "email", DStr (str "x@y.com"))]);
         (str "professional_experience",
          DList [DDict [(str "company", DStr (str "Acme"))]])].

Definition resume_of (d : Document) : ResumeProcessor :=
  {| processor := loaded d; resume_data := Some sample_tree |}.

(** The built-ins restricted to ASCII. *)
Definition ascii_isdigit (c : char) : bool := Re.is_ascii_digit c.

Definition ascii_int (s : pystr) : option nat :=
  if forallb Re.is_ascii_digit s
  then Some (fold_left (fun acc c => 10 * acc + N.to_nat (Re.digit_val c)) s 0)
  else None.

Definition no_repr (v : DataTree) : pystr := [].

(** ["bAb"] *)
Definition bAb : Paragraph := plain "bAb".

End Examples.

(** ** More of class DocxProcessor *)

Module DocxEdit.
Import Docx.

(** The test of [remove_placeholder_bullet_points] on a paragraph. *)
Definition is_placeholder_bullet (placeholder_text : pystr)
    (paragraph : Paragraph) : bool :=
  let paragraph_text := strip (paragraph_text paragraph) in
  startswith paragraph_text [BULLET]
  && contains (lower placeholder_text) (lower paragraph_text).

Definition keeps_block (placeholder_text : pystr) (b : Block) : bool :=
  match b with
  | BlockP paragraph => negb (is_placeholder_bullet placeholder_text paragraph)
  | BlockT _ => true
  end.

(** [remove_placeholder_bullet_points]: the top-level paragraphs that pass
    the test are collected, then removed from the body; their number is
    returned. *)
Definition remove_placeholder_bullet_points (self : DocxProcessor)
    (placeholder_text : pystr) : DocxProcessor * nat :=
  match document self with
  | None => (self, 0)
  | Some d =>
      let paragraphs_to_remove :=
        List.filter (is_placeholder_bullet placeholder_text) (paragraphs d) in
      (loaded (set_body d (List.filter (keeps_block placeholder_text) (body d))),
       length paragraphs_to_remove)
  end.

(** The default value of [placeholder_text]. *)
Definition DEFAULT_PLACEHOLDER_TEXT : pystr := str "Add highlights with this style.".

(** [insert_text_at_bookmark] *)
Definition insert_text_at_bookmark (self : DocxProcessor)
    (bookmark_name text : pystr) : result bool :=
  match document self with
  | None => Raise EditOperationError
  | Some _ => Ok false
  end.

Definition set_style (p : Paragraph) (name : pystr) : Paragraph :=
  {| runs := runs p; style := Some name; left_indent := left_indent p;
     first_line_indent := first_line_indent p;
     space_after := space_after p; line_spacing := line_spacing p |}.

(** [add_paragraph].  [original_styles] are the names under which
    [_extract_styles] has recorded the styles of the document.
    [document.add_paragraph(text)] appends a paragraph to the body, with
    one run when [text] is not empty. *)
Definition add_paragraph (self : DocxProcessor) (original_styles : list pystr)
    (text : pystr) (style : option pystr) : DocxProcessor * result unit :=
  match document self with
  | None => (self, Raise EditOperationError)
  | Some d =>
      let paragraph :=
        match text with
        | [] => empty_paragraph
        | _ :: _ => add_run empty_paragraph text
        end in
      let paragraph :=
        match style with
        | Some ((_ :: _) as name) =>
            if decide (name ∈ original_styles) then set_style paragraph name
            else paragraph
        | _ => paragraph
        end in
      (loaded (set_body d (body d ++ [BlockP paragraph])), Ok tt)
  end.

(** [get_document_info] *)
Record DocumentInfo := {
  paragraph_count : nat;
  table_count : nat;
  style_count : nat;
  styles : list pystr
}.

Definition get_document_info (self : DocxProcessor) (original_styles : list pystr)
    : option DocumentInfo :=
  match document self with
  | None => None
  | Some d =>
      Some {| paragraph_count := length (paragraphs d);
              table_count := length (tables d);
              style_count := length original_styles;
              styles := original_styles |}
  end.

End DocxEdit.

(** ** More of class ResumeProcessor *)

Module ResumeData.
Import Docx Resume.

(** [_get_nested_value]: the keys of a dotted path, through dictionaries
    only.  Nothing in the loop can raise. *)
Fixpoint nested_value_loop (value : DataTree) (keys : list pystr) : DataTree :=
  match keys with
  | [] => value
  | key :: rest =>
      match value with
      | DDict entries =>
          match dict_get entries key with
          | Some item => nested_value_loop item rest
          | None => DNone
          end
      | _ => DNone
      end
  end.

Definition _get_nested_value (data : DataTree) (path : pystr) : DataTree :=
  nested_value_loop data (split DOT path).

(** [field in container]; [None] when Python raises [TypeError] (the
    container is a number, a boolean or [None]). *)
Definition py_in (field : pystr) (container : DataTree) : option bool :=
  match container with
  | DDict entries =>
      Some (match dict_get entries field with Some _ => true | None => false end)
  | DList items =>
      Some (existsb (fun item => match item with
                                 | DStr s => bool_decide (s = field)
                                 | _ => false
                                 end) items)
  | DStr s => Some (contains field s)
  | _ => None
  end.

(** [container[field]] for a string [field]; [None] when Python raises
    ([KeyError] for a missing key, [TypeError] when the container is not a
    dictionary). *)
Definition py_getitem (container : DataTree) (field : pystr) : option DataTree :=
  match container with
  | DDict entries => dict_get entries field
  | _ => None
  end.

Record Validation := {
  valid : bool;
  errors : list pystr;
  warnings : option (list pystr)
}.

Definition REQUIRED_FIELDS : list pystr :=
  [str "name"; str "contact"; str "professional_summary"].
Definition CONTACT_FIELDS : list pystr := [str "phone"; str "email"].
Definition ARRAY_FIELDS : list pystr :=
  [str "technical_skills"; str "professional_experience"; str "projects";
   str "education"].

(** The three loops of [validate_resume_data]; [None] is an exception that
    leaves the function. *)
Fixpoint required_loop (data : DataTree) (fields : list pystr)
    (errors : list pystr) : option (list pystr) :=
  match fields with
  | [] => Some errors
  | field :: rest =>
      match py_in field data with
      | None => None
      | Some present =>
          required_loop data rest
            (if present then errors
             else errors ++ [str "Missing required field: " ++ field])
      end
  end.

Fixpoint contact_loop (contact : DataTree) (fields : list pystr)
    (warnings : list pystr) : option (list pystr) :=
  match fields with
  | [] => Some warnings
  | field :: rest =>
      match py_in field contact with
      | None => None
      | Some present =>
          contact_loop contact rest
            (if present then warnings
             else warnings ++ [str "Missing contact field: " ++ field])
      end
  end.

Fixpoint array_loop (data : DataTree) (fields : list pystr)
    (errors : list pystr) : option (list pystr) :=
  match fields with
  | [] => Some errors
  | field :: rest =>
      match py_in field data with
      | None => None
      | Some true =>
          match py_getitem data field with
          | None => None
          | Some (DList _) => array_loop data rest errors
          | Some _ =>
              array_loop data rest
                (errors ++ [str "Field " ++ field ++ str " should be an array"])
          end
      | Some false => array_loop data rest errors
      end
  end.

Definition validate_resume_data (self : ResumeProcessor) : option Validation :=
  match resume_data self with
  | None =>
      Some {| valid := false; errors := [str "No resume data provided"];
              warnings := None |}
  | Some data =>
      if falsy data then
        Some {| valid := false; errors := [str "No resume data provided"];
                warnings := None |}
      else
        errors ← required_loop data REQUIRED_FIELDS [];
        warnings ← match py_in (str "contact") data with
                    | None => None
                    | Some true =>
                        contact ← py_getitem data (str "contact");
                        contact_loop contact CONTACT_FIELDS []
                    | Some false => Some []
                    end;
        errors ← array_loop data ARRAY_FIELDS errors;
        Some {| valid := match errors with [] => true | _ :: _ => false end;
                errors := errors;
                warnings := Some warnings |}
  end.

(** The items of a list when all of them are strings; [None] when
    [", ".join(skills)] raises [TypeError] because one is not. *)
Fixpoint strings_of (items : list DataTree) : option (list pystr) :=
  match items with
  | [] => Some []
  | DStr s :: rest =>
      match strings_of rest with
      | Some texts => Some (s :: texts)
      | None => None
      end
  | _ :: _ => None
  end.

(** [apply_technical_skills]; the result is [None] when a [TypeError]
    leaves the function. *)
Definition apply_technical_skills (self : ResumeProcessor) (placeholder : pystr)
    : ResumeProcessor * option (result nat) :=
  match resume_data self with
  | None => (self, Some (Ok 0))
  | Some data =>
      if falsy data then (self, Some (Ok 0))
      else
        match py_in (str "technical_skills") data with
        | None => (self, None)
        | Some false => (self, Some (Ok 0))
        | Some true =>
            match py_getitem data (str "technical_skills") with
            | None => (self, None)
            | Some (DList skills) =>
                match strings_of skills with
                | None => (self, None)
                | Some texts =>
                    let skills_text := join (str ", ") texts in
                    let (doc, r) :=
                      find_and_replace_text (processor self) placeholder
                        skills_text true true in
                    ({| processor := doc; resume_data := resume_data self |},
                     Some r)
                end
            | Some _ => (self, Some (Ok 0))
            end
        end
  end.

(** The default mappings of [apply_resume_data], in the order of the
    dictionary. *)
Definition default_field_mappings : list (pystr * option pystr) :=
  [ (str "{{NAME}}", Some (str "name"));
    (str "{{PHONE}}", Some (str "contact.phone"));
    (str "{{EMAIL}}", Some (str "contact.email"));
    (str "{{LINKEDIN}}", Some (str "contact.linkedin"));
    (str "{{PROFESSIONAL_SUMMARY}}", Some (str "professional_summary"));
    (str "{{CURRENT_DATE}}", None) ].

Section ApplyResumeData.

(** [str(value)] on a value that is not a string, and the text of
    [datetime.now().strftime("%B %Y")]. *)
Variable repr : DataTree -> pystr.
Variable current_date : pystr.

(** The value that a mapping gives; [None] when the mapping is skipped. *)
Definition mapping_value (data : DataTree) (placeholder : pystr)
    (json_path : option pystr) : option pystr :=
  match json_path with
  | None =>
      if decide (placeholder = str "{{CURRENT_DATE}}") then Some current_date
      else None
  | Some path =>
      match _get_nested_value data path with
      | DNone => None
      | value => Some (py_str repr value)
      end
  end.

(** The loop over [mappings.items()]: whatever a replacement raises is
    caught, and the loop goes on. *)
Fixpoint resume_loop (data : DataTree) (doc : DocxProcessor)
    (mappings : list (pystr * option pystr)) (total_replacements : nat)
    : DocxProcessor * nat :=
  match mappings with
  | [] => (doc, total_replacements)
  | (placeholder, json_path) :: rest =>
      match mapping_value data placeholder json_path with
      | None => resume_loop data doc rest total_replacements
      | Some value =>
          let (doc', r) := find_and_replace_text doc placeholder value true true in
          match r with
          | Ok replacements =>
              resume_loop data doc' rest (total_replacements + replacements)
          | Raise _ => resume_loop data doc' rest total_replacements
          end
      end
  end.

Definition apply_resume_data (self : ResumeProcessor)
    (field_mappings : option (list (pystr * option pystr)))
    : ResumeProcessor * result nat :=
  match resume_data self with
  | None => (self, Raise EditOperationError)
  | Some data =>
      if falsy data then (self, Raise EditOperationError)
      else
        let mappings :=
          match field_mappings with
          | Some ((_ :: _) as given) => given
          | _ => default_field_mappings
          end in
        let (doc, total) := resume_loop data (processor self) mappings 0 in
        ({| processor := doc; resume_data := resume_data self |}, Ok total)
  end.

End ApplyResumeData.

End ResumeData.

(** ** The operations of the [/edit-docx] endpoint ([src/api.py]) *)

Module Api.
Import Docx DocxEdit.

Record EditOperation := {
  operation_type : pystr;
  search_text : option pystr;
  replace_text : option pystr;
  new_text : option pystr;
  preserve_formatting : bool;
  case_sensitive : bool;
  bookmark_name : option pystr;
  style_name : option pystr
}.

(** [not text] for an optional string *)
Definition missing (text : option pystr) : bool :=
  match text with
  | Some (_ :: _) => false
  | _ => true
  end.

(** What the loop of [edit_docx] carries along. *)
Record EditState := {
  edit_processor : DocxProcessor;
  edit_errors : list pystr;
  operations_performed : nat
}.

Definition with_error (s : EditState) (message : pystr) : EditState :=
  {| edit_processor := edit_processor s;
     edit_errors := edit_errors s ++ [message];
     operations_performed := operations_performed s |}.

Section Operations.

(** [str(e)] for an exception, and the style names recorded at loading. *)
Variable exception_text : exn -> pystr.
Variable original_styles : list pystr.

(** One operation: the body of the loop with its [try ... except
    Exception]. *)
Definition perform (s : EditState) (operation : EditOperation) : EditState :=
  if decide (operation_type operation = str "replace") then
    match search_text operation, replace_text operation with
    | Some ((_ :: _) as search), Some replace =>
        let (processor, r) :=
          find_and_replace_text (edit_processor s) search replace
            (preserve_formatting operation) (case_sensitive operation) in
        match r with
        | Ok replacements =>
            if 0 <? replacements then
              {| edit_processor := processor;
                 edit_errors := edit_errors s;
                 operations_performed := operations_performed s + 1 |}
            else
              {| edit_processor := processor;
                 edit_errors :=
                   edit_errors s
                   ++ [str "Text '" ++ search ++ str "' not found in document"];
                 operations_performed := operations_performed s |}
        | Raise e =>
            {| edit_processor := processor;
               edit_errors :=
                 edit_errors s ++ [str "Operation failed: " ++ exception_text e];
               operations_performed := operations_performed s |}
        end
    | _, _ =>
        with_error s (str "Replace operation requires search_text and replace_text")
    end
  else if decide (operation_type operation = str "add_paragraph") then
    match new_text operation with
    | Some ((_ :: _) as text) =>
        let (processor, r) :=
          add_paragraph (edit_processor s) original_styles text
            (style_name operation) in
        match r with
        | Ok _ =>
            {| edit_processor := processor;
               edit_errors := edit_errors s;
               operations_performed := operations_performed s + 1 |}
        | Raise e =>
            {| edit_processor := processor;
               edit_errors :=
                 edit_errors s ++ [str "Operation failed: " ++ exception_text e];
               operations_performed := operations_performed s |}
        end
    | _ => with_error s (str "Add paragraph operation requires new_text")
    end
  else if decide (operation_type operation = str "insert") then
    match bookmark_name operation, new_text operation with
    | Some ((_ :: _) as name), Some ((_ :: _) as text) =>
        match insert_text_at_bookmark (edit_processor s) name text with
        | Ok true =>
            {| edit_processor := edit_processor s;
               edit_errors := edit_errors s;
               operations_performed := operations_performed s + 1 |}
        | Ok false =>
            with_error s (str "Bookmark '" ++ name ++ str "' not found")
        | Raise e => with_error s (str "Operation failed: " ++ exception_text e)
        end
    | _, _ =>
        with_error s (str "Insert operation requires bookmark_name and new_text")
    end
  else
    with_error s (str "Unknown operation type: " ++ operation_type operation).

(** The loop over [edit_request.operations], from no error and no
    operation performed. *)
Definition perform_all (processor : DocxProcessor)
    (operations : list EditOperation) : EditState :=
  fold_left perform operations
    {| edit_processor := processor; edit_errors := [];
       operations_performed := 0 |}.

End Operations.

End Api.

(** ** More notions for the properties *)

Module Layout.
Import Docx Resume.

(** Two paragraphs with the same style and the same layout. *)
Definition same_layout (p p' : Paragraph) : Prop :=
  style p' = style p
  /\ left_indent p' = left_indent p
  /\ first_line_indent p' = first_line_indent p
  /\ space_after p' = space_after p
  /\ line_spacing p' = line_spacing p.

(** Two blocks of the same shape: paragraphs of the same layout, or tables
    with as many rows, cells and paragraphs, paragraph by paragraph of the
    same layout. *)
Definition same_shape (b b' : Block) : Prop :=
  match b, b' with
  | BlockP p, BlockP p' => same_layout p p'
  | BlockT t, BlockT t' => Forall2 (Forall2 (Forall2 same_layout)) t t'
  | _, _ => False
  end.

(** The number of places where the formatting changes along a character
    map, [f] being the formatting before its first character. *)
Fixpoint changes_from (f : Formatting) (items : list CharEntry) : nat :=
  match items with
  | [] => 0
  | item :: rest =>
      (if decide (formatting item = f) then 0 else 1)
      + changes_from (formatting item) rest
  end.

(** A paragraph is as it was, or has become one run of default formatting
    with another text. *)
Definition reset_or_same (p p' : Paragraph) : Prop :=
  p' = p
  \/ exists new_text,
       new_text <> paragraph_text p
       /\ runs p' = [{| run_text := new_text; props := default_formatting |}].

(** The six categories of the counters, and their sum. *)
Definition CATEGORIES : list string :=
  ["basic_fields"; "contact_fields"; "technical_skills";
   "professional_experience"; "projects"; "education"]%string.

Definition category_total (counts : gmap string nat) : nat :=
  foldr (fun key total => default 0 (counts !! key) + total) 0 CATEGORIES.

(** The counters have the seven keys, and the total is the sum of the
    categories. *)
Definition balanced (counts : gmap string nat) : Prop :=
  dom counts = dom initial_counts
  /\ counts !! "total_replacements"%string = Some (category_total counts).

(** [isinstance(value, str)] *)
Definition is_string (v : DataTree) : bool :=
  match v with
  | DStr _ => true
  | _ => false
  end.

(** A JSON value that is [null], a boolean or a number. *)
Definition scalar (v : DataTree) : bool :=
  match v with
  | DNone | DBool _ | DInt _ | DFloat _ => true
  | DStr _ | DList _ | DDict _ => false
  end.

End Layout.

(** ** More samples *)

Module Requests.
Import Docx Resume Api.

Definition replace_operation : EditOperation :=
  {| operation_type := str "replace"; search_text := Some (str "a");
     replace_text := Some (str "x"); new_text := None;
     preserve_formatting := true; case_sensitive := true;
     bookmark_name := None; style_name := None |}.

Definition insert_operation : EditOperation :=
  {| operation_type := str "insert"; search_text := None;
     replace_text := None; new_text := Some (str "x");
     preserve_formatting := true; case_sensitive := true;
     bookmark_name := Some (str "b"); style_name := None |}.

Definition letter_state : EditState :=
  {| edit_processor := loaded Examples.letter_document; edit_errors := [];
     operations_performed := 0 |}.

(** [str(e)] left empty *)
Definition no_message (e : exn) : pystr := [].

(** Data with skills. *)
Definition skills_entries : list (pystr * DataTree) :=
  [(str "technical_skills", DList [DStr (str "Go"); DStr (str "C")])].

End Requests.

(** * Properties *)

Import Py Docx Spec Resume ResolveSpec Examples.

(** ** Occurrences *)

Lemma match_here_occurs cs pat text :
  match_here cs pat text = true <-> occurs_at cs pat text.
Proof.
  split.
  - revert text. induction pat as [|p pat IH]; intros text H.
    + exists [], text. split; [reflexivity|]. by destruct cs.
    + destruct text as [|c text]; [discriminate|].
      simpl in H. apply andb_prop in H as [Hc H].
      destruct (IH _ H) as (m & r & -> & Hm).
      exists (c :: m), r. split; [reflexivity|].
      destruct cs; simpl in *.
      * apply N.eqb_eq in Hc. by subst.
      * apply N.eqb_eq in Hc. unfold lower in *. simpl. by f_equal.
  - intros (m & r & -> & Hm). revert m Hm.
    induction pat as [|p pat IH]; intros m Hm; [reflexivity|].
    destruct m as [|c m].
    + destruct cs; discriminate.
    + assert (char_eqb cs p c = true /\ matches cs pat m) as [Hc Hm'].
      { destruct cs; simpl in *.
        - injection Hm as -> ->. split; [apply N.eqb_refl | reflexivity].
        - unfold lower in Hm. simpl in Hm. injection Hm as Hc Hm.
          split; [by apply N.eqb_eq | exact Hm]. }
      simpl. rewrite Hc. simpl. by apply IH.
Qed.

Lemma match_here_not_occurs cs pat text :
  match_here cs pat text = false <-> ~ occurs_at cs pat text.
Proof.
  rewrite <- match_here_occurs. destruct (match_here cs pat text); split; congruence.
Qed.

Lemma matches_length cs pat m : matches cs pat m -> length m = length pat.
Proof.
  destruct cs; simpl; [by intros ->|].
  intros H. apply (f_equal length) in H. unfold lower in H.
  by rewrite !length_map in H.
Qed.

Lemma match_here_app cs pat m rest :
  matches cs pat m -> match_here cs pat (m ++ rest) = true.
Proof. intros H. apply match_here_occurs. by exists m, rest. Qed.

Lemma occurs_at_split cs pat text :
  occurs_at cs pat text ->
  matches cs pat (take (length pat) text) /\ length pat <= length text.
Proof.
  intros (m & r & -> & Hm). pose proof (matches_length _ _ _ Hm) as Hl.
  rewrite <- Hl, take_app_length. split; [done|]. rewrite length_app. lia.
Qed.

Lemma match_here_lower pat text :
  match_here false pat text = match_here true (lower pat) (lower text).
Proof.
  revert text. induction pat as [|p pat IH]; intros [|c text]; simpl; try reflexivity.
  by rewrite IH.
Qed.

Lemma match_here_weaken pat text :
  match_here true pat text = true -> match_here false pat text = true.
Proof.
  revert text. induction pat as [|p pat IH]; intros [|c text]; simpl; try done.
  intros [Hc H]%andb_prop. apply N.eqb_eq in Hc as ->.
  rewrite N.eqb_refl. simpl. by apply IH.
Qed.

(** ** The scans skip what the last occurrence covers *)

Lemma scan_skip cs pat k pos text :
  k <= length text ->
  Re.scan cs pat k pos text = Re.scan cs pat 0 (pos + k) (drop k text).
Proof.
  revert k pos. induction text as [|c text IH]; intros k pos Hk.
  - simpl in Hk. assert (k = 0) as -> by lia. by rewrite Nat.add_0_r.
  - destruct k as [|k]; [by rewrite Nat.add_0_r|].
    simpl in *. rewrite IH by lia. f_equal. lia.
Qed.

Lemma count_from_skip old k text :
  k <= length text -> count_from old k text = count_from old 0 (drop k text).
Proof.
  revert k. induction text as [|c text IH]; intros k Hk.
  - simpl in Hk. by assert (k = 0) as -> by lia.
  - destruct k as [|k]; [done|]. simpl in *. apply IH. lia.
Qed.

Lemma replace_from_skip old new k text :
  k <= length text -> replace_from old new k text = replace_from old new 0 (drop k text).
Proof.
  revert k. induction text as [|c text IH]; intros k Hk.
  - simpl in Hk. by assert (k = 0) as -> by lia.
  - destruct k as [|k]; [done|]. simpl in *. apply IH. lia.
Qed.

(** The three cases of a scan for a non-empty pattern. *)
Lemma scan_nil cs pat pos : pat <> [] -> Re.scan cs pat 0 pos [] = [].
Proof. by destruct pat. Qed.

Lemma scan_occurrence cs pat pos m rest :
  pat <> [] -> matches cs pat m ->
  Re.scan cs pat 0 pos (m ++ rest)
  = (pos, pos + length pat) :: Re.scan cs pat 0 (pos + length pat) rest.
Proof.
  intros Hpat Hm. pose proof (matches_length _ _ _ Hm) as Hl.
  destruct m as [|c m]; [by destruct pat|].
  change ((c :: m) ++ rest) with (c :: (m ++ rest)).
  cbn [Re.scan]. change (c :: (m ++ rest)) with ((c :: m) ++ rest).
  rewrite (match_here_app _ _ _ _ Hm). f_equal.
  rewrite scan_skip by (rewrite length_app; simpl in Hl; lia).
  simpl in Hl. rewrite <- Hl.
  replace (S (length m) - 1) with (length m) by lia.
  rewrite drop_app_length. f_equal. lia.
Qed.

Lemma scan_other cs pat pos c rest :
  ~ occurs_at cs pat (c :: rest) ->
  Re.scan cs pat 0 pos (c :: rest) = Re.scan cs pat 0 (S pos) rest.
Proof.
  intros H. apply match_here_not_occurs in H. cbn [Re.scan]. by rewrite H.
Qed.

(** ** The substitution relation *)

Lemma Substituted_total cs search repl cm :
  search <> [] -> exists n cm', Substituted cs search repl cm n cm'.
Proof.
  intros Hs. remember (length cm) as k eqn:Hk.
  revert cm Hk. induction k as [k IH] using lt_wf_ind. intros cm Hk.
  destruct cm as [|e rest].
  - exists 0, []. constructor.
  - destruct (match_here cs search (List.map ch (e :: rest))) eqn:Hm.
    + apply match_here_occurs, occurs_at_split in Hm as [Hm Hl].
      rewrite length_map in Hl.
      rewrite <- (take_drop (length search) (e :: rest)).
      rewrite firstn_map in Hm.
      destruct (take (length search) (e :: rest)) as [|first span] eqn:Ht.
      { apply (f_equal length) in Ht. rewrite length_take in Ht.
        destruct search; [done|]. simpl in *. lia. }
      destruct (IH (length (drop (length search) (e :: rest)))) with
        (cm := drop (length search) (e :: rest)) as (n & cm' & H); [|done|].
      { rewrite length_drop. subst k. destruct search; [done|]. simpl. lia. }
      eexists _, _. change ((first :: span) ++ ?r) with (first :: span ++ r).
      by apply Substituted_occurrence.
    + apply match_here_not_occurs in Hm.
      destruct (IH (length rest)) with (cm := rest) as (n & cm' & H);
        [subst k; simpl; lia | done |].
      eexists _, _. by apply Substituted_other.
Qed.

Lemma Substituted_text cs search repl cm n cm' :
  Substituted cs search repl cm n cm' ->
  Subst cs search repl (List.map ch cm) n (List.map ch cm').
Proof.
  induction 1 as [|first span rest n rest' Hm _ IH|e rest n rest' Hm _ IH].
  - constructor.
  - rewrite app_comm_cons, !map_app.
    unfold tagged. rewrite List.map_map. simpl List.map at 2. rewrite List.map_id.
    by constructor.
  - simpl. by constructor.
Qed.

Lemma Subst_deterministic cs search repl text n r n' r' :
  search <> [] ->
  Subst cs search repl text n r -> Subst cs search repl text n' r' ->
  n = n' /\ r = r'.
Proof.
  intros Hs H. revert n' r'.
  induction H as [|m rest n r Hm _ IH|c rest n r Hno _ IH]; intros n' r' H'.
  - inversion H'; subst; try done.
    pose proof (matches_length _ _ _ H0). destruct m; [|discriminate].
    by destruct search.
  - inversion H' as [Hnil|m2 rest2 n2 r2 Hm2 H2 Heq|c rest2 n2 r2 Hno2 H2 Heq]; subst.
    + pose proof (matches_length _ _ _ Hm). destruct m; [|discriminate].
      by destruct search.
    + apply app_inj_1 in Heq as [-> ->].
      2:{ by rewrite (matches_length _ _ _ Hm), (matches_length _ _ _ Hm2). }
      destruct (IH _ _ H2) as [-> ->]. done.
    + exfalso. apply Hno2. rewrite Heq. by exists m, rest.
  - inversion H' as [|m2 rest2 n2 r2 Hm2 H2 Heq|c2 rest2 n2 r2 Hno2 H2]; subst.
    + exfalso. apply Hno. rewrite <- Heq. by exists m2, rest2.
    + destruct (IH _ _ H2) as [-> ->]. done.
Qed.

(** Without an occurrence nothing changes. *)
Lemma Substituted_zero cs search repl cm cm' :
  Substituted cs search repl cm 0 cm' -> cm' = cm.
Proof.
  remember 0 as n eqn:Hn. induction 1; [done|discriminate|].
  f_equal. auto.
Qed.

(** The number of matches of the scan. *)
Lemma scan_length cs search repl cm n cm' pos :
  search <> [] -> Substituted cs search repl cm n cm' ->
  length (Re.scan cs search 0 pos (List.map ch cm)) = n.
Proof.
  intros Hs H. revert pos.
  induction H as [|first span rest n rest' Hm _ IH|e rest n rest' Hm _ IH]; intros pos.
  - by rewrite scan_nil.
  - rewrite app_comm_cons, map_app, (scan_occurrence _ _ _ _ _ Hs Hm).
    simpl. by rewrite IH.
  - change (List.map ch (e :: rest)) with (ch e :: List.map ch rest).
    rewrite scan_other by done. apply IH.
Qed.

(** [contains] finds an occurrence at some position. *)
Lemma contains_drop sub text :
  contains sub text = true <-> exists i, match_here true sub (drop i text) = true.
Proof.
  induction text as [|c text IH].
  - simpl. rewrite orb_false_r. split; [by exists 0|].
    intros [i H]. by rewrite drop_nil in H.
  - cbn [contains]. rewrite orb_true_iff, IH. split.
    + intros [H|[i H]]; [by exists 0 | by exists (S i)].
    + intros [[|i] H]; [by left | right; by exists i].
Qed.

(** A count of zero means that no position matches. *)
Lemma Substituted_zero_no_match cs search repl cm cm' i :
  search <> [] -> Substituted cs search repl cm 0 cm' ->
  match_here cs search (drop i (List.map ch cm)) = false.
Proof.
  intros Hs. remember 0 as n eqn:Hn. intros H. revert i.
  induction H as [|first span rest n rest' Hm _ IH|e rest n rest' Hm _ IH];
    intros i; [|discriminate|].
  - cbn [List.map]. rewrite drop_nil. by destruct search.
  - destruct i as [|i]; [by apply match_here_not_occurs|].
    simpl. by apply IH.
Qed.

(** ** The loop over the reversed matches *)

Lemma splice_loop_step repl pre first span rest tail c :
  splice_loop repl
    ((length pre, length pre + length (first :: span)) :: tail)
    (pre ++ (first :: span) ++ rest) c
  = splice_loop repl tail (pre ++ tagged (formatting first) repl ++ rest) (S c).
Proof.
  cbn [splice_loop].
  rewrite (lookup_app_r pre) by lia. rewrite Nat.sub_diag.
  cbn [app lookup list_lookup].
  rewrite take_app_length.
  change (first :: span ++ rest) with ((first :: span) ++ rest).
  rewrite drop_app_add', drop_app_length; reflexivity.
Qed.

Lemma splice_loop_scan cs search repl cm n cm' :
  search <> [] -> Substituted cs search repl cm n cm' ->
  forall pre tail c,
    splice_loop repl
      (rev (Re.scan cs search 0 (length pre) (List.map ch cm)) ++ tail)
      (pre ++ cm) c
    = splice_loop repl tail (pre ++ cm') (c + n).
Proof.
  intros Hs H.
  induction H as [|first span rest n rest' Hm _ IH|e rest n rest' Hm _ IH];
    intros pre tail c.
  - rewrite scan_nil by done. simpl. by rewrite Nat.add_0_r.
  - pose proof (matches_length _ _ _ Hm) as Hl. rewrite length_map in Hl.
    rewrite (app_comm_cons span rest first), map_app.
    rewrite (scan_occurrence _ _ _ _ _ Hs Hm).
    cbn [rev]. rewrite <- (app_assoc _ [_] tail).
    rewrite (app_assoc pre (first :: span) rest).
    replace (length pre + length search) with (length (pre ++ first :: span))
      by (rewrite length_app; lia).
    rewrite IH. rewrite <- (app_assoc pre (first :: span) rest').
    rewrite length_app, Hl, <- Hl.
    change ([?x] ++ tail) with (x :: tail).
    rewrite splice_loop_step. f_equal. lia.
  - change (List.map ch (e :: rest)) with (ch e :: List.map ch rest).
    rewrite scan_other by done.
    replace (S (length pre)) with (length (pre ++ [e]))
      by (rewrite length_app; simpl; lia).
    rewrite (cons_middle e pre rest), app_assoc, IH.
    by rewrite <- app_assoc.
Qed.

(** ** Rebuilding a paragraph *)

Lemma tagged_app f s t : tagged f (s ++ t) = tagged f s ++ tagged f t.
Proof. apply map_app. Qed.

Lemma map_ch_tagged f s : List.map ch (tagged f s) = s.
Proof. unfold tagged. rewrite List.map_map. apply List.map_id. Qed.

Lemma build_char_map_runs p rs r :
  build_char_map (set_runs p (rs ++ [r]))
  = build_char_map (set_runs p rs) ++ tagged (_extract_run_formatting r) (run_text r).
Proof.
  unfold build_char_map. simpl. rewrite flat_map_app. simpl. by rewrite app_nil_r.
Qed.

Lemma set_runs_runs p : set_runs p (runs p) = p.
Proof. by destruct p. Qed.

Lemma build_char_map_add_run p text f :
  build_char_map (add_run_with p text (fun r => _apply_run_formatting r f))
  = build_char_map p ++ tagged (written_back f) text.
Proof.
  unfold add_run_with. rewrite build_char_map_runs, set_runs_runs. reflexivity.
Qed.

Lemma rebuild_loop_map p t f items :
  build_char_map (rebuild_loop p t f items)
  = build_char_map p ++ tagged (written_back f) t ++ List.map rewritten items.
Proof.
  revert p t f. induction items as [|item rest IH]; intros p t f.
  - simpl. rewrite app_nil_r. destruct t.
    + by rewrite app_nil_r.
    + apply build_char_map_add_run.
  - cbn [rebuild_loop]. destruct (decide (formatting item = f)) as [<-|Hne].
    + rewrite IH, tagged_app, <- app_assoc. reflexivity.
    + rewrite IH. destruct t.
      * simpl. reflexivity.
      * rewrite build_char_map_add_run, <- app_assoc. reflexivity.
Qed.

Lemma rebuild_map p cm :
  build_char_map (_rebuild_paragraph_with_formatting p cm) = List.map rewritten cm.
Proof.
  unfold _rebuild_paragraph_with_formatting. destruct cm as [|first cm]; [done|].
  by rewrite rebuild_loop_map.
Qed.

Lemma paragraph_text_map p : paragraph_text p = List.map ch (build_char_map p).
Proof.
  unfold paragraph_text, build_char_map.
  induction (runs p) as [|r rs IH]; [done|].
  simpl. rewrite map_app, <- IH. f_equal.
  rewrite List.map_map. simpl. by rewrite List.map_id.
Qed.

Lemma map_ch_rewritten cm : List.map ch (List.map rewritten cm) = List.map ch cm.
Proof. by rewrite List.map_map. Qed.

(** ** One paragraph *)

Lemma preserve_correct cs search repl p n cm' :
  search <> [] -> Substituted cs search repl (build_char_map p) n cm' ->
  _replace_with_formatting_preservation p search repl cs
  = Ok (if 0 <? n then _rebuild_paragraph_with_formatting p cm' else p, n).
Proof.
  intros Hs H. unfold _replace_with_formatting_preservation, Re.finditer.
  pose proof (scan_length _ _ _ _ _ _ 0 Hs H) as Hn.
  pose proof (splice_loop_scan _ _ _ _ _ _ Hs H [] [] 0) as Hl.
  rewrite app_nil_r in Hl. simpl in Hl.
  destruct (Re.scan cs search 0 0 (List.map ch (build_char_map p))) as [|x l] eqn:E.
  - simpl in Hn. by subst n.
  - rewrite Hl. reflexivity.
Qed.

Lemma preserve_text cs search repl p n cm' :
  Substituted cs search repl (build_char_map p) n cm' ->
  paragraph_text (if 0 <? n then _rebuild_paragraph_with_formatting p cm' else p)
  = List.map ch cm'.
Proof.
  intros H. destruct n as [|n]; simpl.
  - apply Substituted_zero in H as ->. apply paragraph_text_map.
  - by rewrite paragraph_text_map, rebuild_map, map_ch_rewritten.
Qed.

(** [str.replace] and [str.count] *)
Lemma replace_count_correct search repl text n r :
  search <> [] -> Subst true search repl text n r ->
  replace text search repl = r /\ count text search = n.
Proof.
  intros Hs. unfold replace, count.
  induction 1 as [|m rest n r Hm _ [IHr IHc]|c rest n r Hno _ [IHr IHc]].
  - by destruct search.
  - unfold matches in Hm. subst m.
    destruct search as [|s0 s']; [done|].
    change ((s0 :: s') ++ rest) with (s0 :: (s' ++ rest)).
    cbn [replace_from count_from].
    change (s0 :: (s' ++ rest)) with ((s0 :: s') ++ rest).
    rewrite (match_here_app true (s0 :: s') (s0 :: s') rest) by done.
    replace (length (s0 :: s') - 1) with (length s') by (simpl; lia).
    rewrite replace_from_skip, count_from_skip by (rewrite length_app; lia).
    rewrite drop_app_length. by rewrite IHr, IHc.
  - apply match_here_not_occurs in Hno. cbn [replace_from count_from].
    rewrite Hno. by rewrite IHr, IHc.
Qed.

Lemma found_here cs search text :
  match_here cs search text = true -> found cs search text = true.
Proof.
  intros H. unfold found. destruct cs.
  - destruct text; simpl; by rewrite H.
  - rewrite match_here_lower in H. destruct (lower text); simpl; by rewrite H.
Qed.

Lemma found_tail cs search c text :
  found cs search (c :: text) = false -> found cs search text = false.
Proof.
  unfold found. destruct cs; cbn [lower List.map contains];
    by intros [_ H]%orb_false_elim.
Qed.

Lemma Subst_not_found cs search repl text n r :
  found cs search text = false -> Subst cs search repl text n r ->
  n = 0 /\ r = text.
Proof.
  intros Hc H. induction H as [|m rest n r Hm _ IH|c rest n r Hno _ IH].
  - done.
  - by rewrite (found_here _ _ _ (match_here_app _ _ _ rest Hm)) in Hc.
  - destruct (IH (found_tail _ _ _ _ Hc)) as [-> ->]. done.
Qed.

Lemma paragraph_correct pf cs search repl p n r :
  pf = true \/ cs = true ->
  search <> [] -> Subst cs search repl (paragraph_text p) n r ->
  exists p',
    _replace_text_in_paragraph p search repl pf cs
    = Ok (p', counted pf (paragraph_text p) n r)
    /\ paragraph_text p' = r.
Proof.
  intros Hmode Hs H. unfold _replace_text_in_paragraph.
  destruct (runs p) as [|r0 rs] eqn:Hruns.
  { assert (paragraph_text p = []) as Ht by (unfold paragraph_text; by rewrite Hruns).
    rewrite Ht in *. inversion H as [|m ? ? ? Hm|]; subst.
    - exists p. split; [|done]. by destruct pf.
    - pose proof (matches_length _ _ _ Hm). destruct m; [|discriminate].
      by destruct search. }
  fold (found cs search (paragraph_text p)).
  destruct (found cs search (paragraph_text p)) eqn:Hc; cbn [negb].
  2:{ destruct (Subst_not_found _ _ _ _ _ _ Hc H) as [-> ->].
      exists p. split; [|done]. unfold counted. destruct pf; [done|].
      by destruct (decide _). }
  destruct pf.
  - destruct (Substituted_total cs search repl (build_char_map p) Hs)
      as (n' & cm' & Hsub).
    pose proof (Substituted_text _ _ _ _ _ _ Hsub) as Ht.
    rewrite <- paragraph_text_map in Ht.
    destruct (Subst_deterministic _ _ _ _ _ _ _ _ Hs H Ht) as [-> ->].
    eexists. split; [by apply preserve_correct|].
    by apply (preserve_text cs search repl).
  - destruct Hmode as [ ? | -> ]; [done|].
    destruct (replace_count_correct _ _ _ _ _ Hs H) as [Hr Hn].
    cbn [Py.bind]. rewrite Hr, Hn. unfold counted.
    destruct (decide (r <> paragraph_text p)) as [Hne|Heq].
    + eexists. split.
      * destruct (decide (r = paragraph_text p)); [done|reflexivity].
      * unfold paragraph_text. simpl. apply app_nil_r.
    + exists p. apply dec_stable in Heq. split; [|done].
      by destruct (decide (r = paragraph_text p)).
Qed.

(** ** The loops over the document *)

Lemma for_each_app {A} (f : A -> A * result nat) (l1 l2 : list A) :
  for_each f (l1 ++ l2)
  = let (l1', r1) := for_each f l1 in
    match r1 with
    | Raise e => (l1' ++ l2, Raise e)
    | Ok n => let (l2', r2) := for_each f l2 in
              (l1' ++ l2', m <-! r2; Ok (n + m))
    end.
Proof.
  induction l1 as [|x l1 IH].
  - simpl. by destruct (for_each f l2) as [l2' [m|e]].
  - cbn [app for_each]. destruct (f x) as [x' [n|e]]; [|done].
    rewrite IH. destruct (for_each f l1) as [l1' [n1|e1]]; [|done].
    destruct (for_each f l2) as [l2' [m|e2]]; simpl; [|done].
    do 2 f_equal. lia.
Qed.

Lemma for_each_refines {A} (F : A -> A * result nat) paras g :
  refines F paras g -> refines (for_each F) (flat_map paras) g.
Proof.
  intros HF l. induction l as [|x l IH]; [done|].
  cbn [flat_map for_each]. rewrite for_each_app, <- (HF x), <- IH.
  destruct (F x) as [x' [n|e]]; [|done].
  by destruct (for_each F l) as [l' [m|e]].
Qed.

Lemma cell_refines g : refines (for_each g) id g.
Proof. intros c. unfold id. by destruct (for_each g c). Qed.

Lemma table_refines g :
  refines (for_each (for_each (for_each g))) table_paragraphs g.
Proof. apply for_each_refines, for_each_refines, cell_refines. Qed.

Lemma on_paragraph_refines g : refines (on_paragraph g) block_paragraphs g.
Proof.
  intros [p|t]; [|reflexivity]. simpl. destruct (g p) as [p' [n|e]]; [|done].
  simpl. by rewrite Nat.add_0_r.
Qed.

Lemma on_table_refines F g :
  refines F table_paragraphs g ->
  refines (on_table F) (fun b => flat_map table_paragraphs (block_tables b)) g.
Proof.
  intros HF [p|t]; [reflexivity|]. simpl. rewrite !app_nil_r, <- (HF t).
  destruct (F t) as [t' r]. simpl. by rewrite app_nil_r.
Qed.

Lemma on_paragraph_frame g l :
  flat_map block_tables (for_each (on_paragraph g) l).1 = flat_map block_tables l.
Proof.
  induction l as [|b l IH]; [done|].
  cbn [for_each]. destruct b as [p|t]; simpl.
  - destruct (g p) as [p' [n|e]]; [|done].
    by destruct (for_each (on_paragraph g) l).
  - destruct (for_each (on_paragraph g) l). simpl in *. by rewrite IH.
Qed.

Lemma on_table_frame F l :
  flat_map block_paragraphs (for_each (on_table F) l).1
  = flat_map block_paragraphs l.
Proof.
  induction l as [|b l IH]; [done|].
  cbn [for_each]. destruct b as [p|t]; simpl.
  - destruct (for_each (on_table F) l). simpl in *. by rewrite IH.
  - destruct (F t) as [t' [n|e]]; [|done].
    by destruct (for_each (on_table F) l).
Qed.

Lemma flat_map_tables l :
  flat_map table_paragraphs (flat_map block_tables l)
  = flat_map (fun b => flat_map table_paragraphs (block_tables b)) l.
Proof.
  induction l as [|b l IH]; [done|]. simpl. by rewrite flat_map_app, IH.
Qed.

(** [find_and_replace_text] is the flat loop over the visited
    paragraphs. *)
Lemma find_and_replace_flat d search repl pf cs :
  let g := in_place (fun p => _replace_text_in_paragraph p search repl pf cs) in
  exists d',
    find_and_replace_text (loaded d) search repl pf cs
    = (loaded d', wrapped (for_each g (visited_paragraphs d)).2)
    /\ visited_paragraphs d' = (for_each g (visited_paragraphs d)).1.
Proof.
  intros g. unfold find_and_replace_text, visited_paragraphs, paragraphs, tables.
  cbn [document loaded]. fold g.
  rewrite for_each_app.
  pose proof (for_each_refines _ _ _ (on_paragraph_refines g) (body d)) as H1.
  pose proof (on_paragraph_frame g (body d)) as F1.
  destruct (for_each (on_paragraph g) (body d)) as [body1 r1].
  cbn [fst snd] in *. rewrite <- H1. destruct r1 as [n1|e1].
  2:{ eexists. split; [reflexivity|]. cbn [body set_body fst]. by rewrite F1. }
  pose proof (for_each_refines _ _ _
    (on_table_refines _ _ (table_refines g)) body1) as H2.
  pose proof (on_table_frame (for_each (for_each (for_each g))) body1) as F2.
  rewrite <- F1, flat_map_tables, <- H2.
  destruct (for_each (on_table _) body1) as [body2 r2].
  cbn [fst snd] in *.
  eexists. split.
  - by destruct r2.
  - cbn [body set_body fst]. by rewrite F2, flat_map_tables.
Qed.

(** The flat loop when no paragraph raises. *)
Lemma for_each_DocSubst pf cs search repl ps n rs :
  pf = true \/ cs = true ->
  search <> [] ->
  DocSubst cs search repl pf (List.map paragraph_text ps) n rs ->
  exists ps',
    for_each (in_place (fun p => _replace_text_in_paragraph p search repl pf cs)) ps
    = (ps', Ok n)
    /\ List.map paragraph_text ps' = rs.
Proof.
  intros Hmode Hs. revert n rs. induction ps as [|p ps IH]; intros n rs H.
  - inversion H; subst. by exists [].
  - inversion H as [|text n1 r texts m rs' H1 H2]; subst.
    destruct (paragraph_correct pf cs _ _ _ _ _ Hmode Hs H1) as (p' & Hp & Ht).
    destruct (IH _ _ H2) as (ps' & Hps & Hts).
    exists (p' :: ps'). cbn [for_each]. unfold in_place at 1.
    rewrite Hp, Hps. split; [done|]. simpl. by rewrite Ht, Hts.
Qed.

Lemma document_correct pf cs search repl d n rs :
  pf = true \/ cs = true ->
  search <> [] ->
  DocSubst cs search repl pf (texts d) n rs ->
  exists d',
    find_and_replace_text (loaded d) search repl pf cs = (loaded d', Ok n)
    /\ texts d' = rs.
Proof.
  intros Hmode Hs H.
  destruct (find_and_replace_flat d search repl pf cs) as (d' & Hd & Hv).
  destruct (for_each_DocSubst _ _ _ _ _ _ _ Hmode Hs H) as (ps' & Hps & Hts).
  exists d'. rewrite Hd, Hps. split; [done|].
  unfold texts. by rewrite Hv, Hps.
Qed.

(** The flat loop when a paragraph raises. *)
Lemma for_each_raise (f : Paragraph -> result (Paragraph * nat))
    before failing after e :
  Forall (fun p => exists p' n, f p = Ok (p', n)) before ->
  f failing = Raise e ->
  exists before',
    for_each (in_place f) (before ++ failing :: after)
    = (before' ++ failing :: after, Raise e)
    /\ Forall2 (fun p p' => exists n, f p = Ok (p', n)) before before'.
Proof.
  intros Hb Hf. induction Hb as [|p before (p' & n & Hp) _ (before' & IH & IH2)].
  - exists []. split; [|constructor]. simpl. unfold in_place. by rewrite Hf.
  - exists (p' :: before'). split.
    + cbn [app for_each]. unfold in_place at 1. rewrite Hp, IH. done.
    + constructor; [by exists n | done].
Qed.

(** ** The empty search string *)

Lemma scan_empty cs pos text :
  exists l, Re.scan cs [] 0 pos text
            = l ++ [(pos + length text, pos + length text)].
Proof.
  revert pos. induction text as [|c text IH]; intros pos.
  - exists []. simpl. by rewrite Nat.add_0_r.
  - destruct (IH (S pos)) as [l Hl]. exists ((pos, pos + 0) :: l).
    cbn [Re.scan match_here length]. rewrite Nat.sub_0_l, Hl.
    cbn [app length]. by rewrite Nat.add_succ_r.
Qed.

Lemma contains_empty text : contains [] text = true.
Proof. by destruct text. Qed.

Lemma empty_search_paragraph p repl cs :
  runs p <> [] -> _replace_text_in_paragraph p [] repl true cs = Raise IndexError.
Proof.
  intros Hr. unfold _replace_text_in_paragraph.
  destruct (runs p) as [|r rs] eqn:E; [done|].
  assert ((if cs then contains [] (paragraph_text p)
           else contains (lower []) (lower (paragraph_text p))) = true) as ->.
  { destruct cs; apply contains_empty. }
  cbn [negb]. unfold _replace_with_formatting_preservation, Re.finditer.
  destruct (scan_empty cs 0 (List.map ch (build_char_map p))) as [l Hl].
  rewrite Hl. destruct (l ++ _) eqn:E'; [by destruct l|]. rewrite <- E'.
  rewrite rev_app_distr. cbn [rev app splice_loop].
  simpl. rewrite length_map.
  by rewrite (lookup_ge_None_2 (build_char_map p)) by lia.
Qed.

Lemma no_runs_paragraph p search repl pf cs :
  runs p = [] -> _replace_text_in_paragraph p search repl pf cs = Ok (p, 0).
Proof. intros H. unfold _replace_text_in_paragraph. by rewrite H. Qed.

(** A list is split at the first element with a decidable property. *)
Lemma split_first {A} (P : A -> Prop) `{!forall x, Decision (P x)} (l : list A) :
  Exists P l ->
  exists before x after,
    l = before ++ x :: after /\ Forall (fun y => ~ P y) before /\ P x.
Proof.
  induction 1 as [x l Hx|x l _ IH].
  - exists [], x, l. by repeat split.
  - destruct (decide (P x)) as [Hx|Hx].
    + exists [], x, l. by repeat split.
    + destruct IH as (before & y & after & -> & Hb & Hy).
      exists (x :: before), y, after. repeat split; [|done]. by constructor.
Qed.

Lemma Forall2_same {A} (R : A -> A -> Prop) (l l' : list A) :
  Forall2 R l l' -> (forall x y, R x y -> x = y) -> l' = l.
Proof. induction 1; intros HR; [done|]. f_equal; [symmetry|]; auto. Qed.

Lemma empty_search_document d repl cs :
  Exists (fun p => runs p <> []) (visited_paragraphs d) ->
  exists d',
    find_and_replace_text (loaded d) [] repl true cs
    = (loaded d', Raise EditOperationError)
    /\ visited_paragraphs d' = visited_paragraphs d.
Proof.
  intros H. apply split_first in H as (before & p & after & Hv & Hb & Hp);
    [|intros x; apply _].
  destruct (find_and_replace_flat d [] repl true cs) as (d' & Hd & Hv').
  destruct (for_each_raise
    (fun p => _replace_text_in_paragraph p [] repl true cs)
    before p after IndexError) as (before' & Hf & H2).
  - eapply Forall_impl; [exact Hb|]. intros q Hq. exists q, 0.
    apply no_runs_paragraph. by apply dec_stable in Hq.
  - by apply empty_search_paragraph.
  - assert (before' = before) as ->.
    { eapply Forall2_same; [exact H2|]. intros x y [n Hn].
      pose proof (Forall2_length _ _ _ H2). clear -Hn Hb H2.
      assert (runs x = [] \/ runs x <> []) as [Hx|Hx]
        by (destruct (runs x); [by left|by right]).
      - rewrite (no_runs_paragraph _ _ _ _ _ Hx) in Hn. congruence.
      - rewrite (empty_search_paragraph _ _ _ Hx) in Hn. discriminate. }
    exists d'. rewrite Hd, Hv', Hv, Hf. done.
Qed.

(** ** Replacing a string with itself *)

Lemma tagged_same f l :
  Forall (fun e => formatting e = f) l -> tagged f (List.map ch l) = l.
Proof.
  induction 1 as [|e l He _ IH]; [done|].
  simpl. rewrite IH. f_equal. destruct e. simpl in *. by subst.
Qed.

Lemma uniform_noop s cm n cm' :
  s <> [] -> Substituted true s s cm n cm' ->
  forall pre,
    forallb (uniform_span (pre ++ cm))
      (Re.scan true s 0 (length pre) (List.map ch cm)) = true ->
    cm' = cm.
Proof.
  intros Hs H.
  induction H as [|first span rest n rest' Hm _ IH|e rest n rest' Hm _ IH];
    intros pre Hu.
  - done.
  - pose proof (matches_length _ _ _ Hm) as Hl. rewrite length_map in Hl.
    rewrite (app_comm_cons span rest first), map_app in Hu.
    rewrite (scan_occurrence _ _ _ _ _ Hs Hm) in Hu.
    cbn [forallb] in Hu. apply andb_prop in Hu as [Hu1 Hu2].
    replace (length pre + length s) with (length (pre ++ first :: span)) in Hu2
      by (rewrite length_app; lia).
    rewrite (app_assoc pre (first :: span) rest) in Hu2.
    rewrite (IH _ Hu2).
    unfold uniform_span in Hu1. cbn [fst snd] in Hu1.
    rewrite (lookup_app_r pre) in Hu1 by lia.
    rewrite Nat.sub_diag in Hu1. cbn [app lookup list_lookup] in Hu1.
    rewrite drop_app_length in Hu1.
    replace (length pre + length s - length pre) with (length (first :: span))
      in Hu1 by lia.
    change (first :: span ++ rest) with ((first :: span) ++ rest) in Hu1.
    rewrite take_app_length in Hu1.
    assert (Forall (fun e => formatting e = formatting first) (first :: span)) as Hf.
    { apply Forall_forall. intros e He.
      rewrite forallb_forall in Hu1.
      apply list_elem_of_In in He. by apply Hu1, bool_decide_eq_true in He. }
    unfold matches in Hm. rewrite <- Hm at 1.
    rewrite (tagged_same _ _ Hf). done.
  - change (List.map ch (e :: rest)) with (ch e :: List.map ch rest) in Hu.
    rewrite scan_other in Hu by done.
    replace (S (length pre)) with (length (pre ++ [e])) in Hu
      by (rewrite length_app; simpl; lia).
    rewrite (cons_middle e pre rest), app_assoc in Hu.
    by rewrite (IH _ Hu).
Qed.

(** ** Rebuilding runs that are already coalesced *)

Lemma rebuild_loop_tagged p t f s items :
  rebuild_loop p t f (tagged f s ++ items) = rebuild_loop p (t ++ s) f items.
Proof.
  revert t. induction s as [|c s IH]; intros t.
  - by rewrite app_nil_r.
  - cbn [tagged List.map app rebuild_loop formatting ch].
    rewrite decide_True by done. fold (tagged f s).
    by rewrite IH, <- app_assoc.
Qed.

Lemma set_runs_set_runs p rs rs' : set_runs (set_runs p rs) rs' = set_runs p rs'.
Proof. done. Qed.

Lemma build_char_map_entries p : build_char_map p = flat_map entries (runs p).
Proof. done. Qed.

Lemma rebuild_loop_runs rs :
  forall p t f,
    t <> [] -> coalesced_from (Some f) rs = true ->
    rebuild_loop p t f (flat_map entries rs)
    = set_runs p (runs p ++ rebuilt_run t f :: rs).
Proof.
  induction rs as [|r rs IH]; intros p t f Ht Hc.
  - simpl. by destruct t.
  - cbn [coalesced_from] in Hc.
    apply andb_prop in Hc as [Hc Hrest]. apply andb_prop in Hc as [Hc Hfix].
    apply andb_prop in Hc as [Htext Hne].
    apply bool_decide_eq_true in Hne, Hfix.
    cbn [flat_map]. unfold entries at 1.
    destruct (run_text r) as [|c s] eqn:Er; [done|].
    cbn [tagged List.map app rebuild_loop formatting ch].
    rewrite decide_False by congruence.
    fold (tagged (_extract_run_formatting r) s).
    rewrite rebuild_loop_tagged. cbn [app].
    rewrite IH by done.
    destruct t as [|c0 t]; [done|].
    unfold add_run_with. rewrite set_runs_set_runs. cbn [runs set_runs].
    rewrite <- app_assoc. cbn [app]. unfold rebuilt_run in *.
    by rewrite Hfix.
Qed.

Lemma rebuild_coalesced p :
  coalesced p = true ->
  _rebuild_paragraph_with_formatting p (build_char_map p) = p.
Proof.
  unfold coalesced, _rebuild_paragraph_with_formatting. intros Hc.
  rewrite build_char_map_entries.
  destruct (runs p) as [|r rs] eqn:E.
  - simpl. unfold clear. by rewrite <- E, set_runs_runs.
  - cbn [coalesced_from] in Hc.
    apply andb_prop in Hc as [Hc Hrest]. apply andb_prop in Hc as [Hc Hfix].
    apply andb_prop in Hc as [Htext Hne].
    apply bool_decide_eq_true in Hfix.
    destruct (run_text r) as [|c s] eqn:Er; [done|].
    assert (flat_map entries (r :: rs)
            = tagged (_extract_run_formatting r) (c :: s) ++ flat_map entries rs)
      as Hflat by (cbn [flat_map]; unfold entries at 1; by rewrite Er).
    rewrite Hflat. cbn [tagged List.map app formatting].
    change ({| ch := c; formatting := _extract_run_formatting r |}
            :: List.map (fun c0 => {| ch := c0; formatting := _extract_run_formatting r |}) s
            ++ flat_map entries rs)
      with (tagged (_extract_run_formatting r) (c :: s) ++ flat_map entries rs).
    rewrite rebuild_loop_tagged. cbn [app].
    rewrite rebuild_loop_runs by done.
    unfold clear. rewrite set_runs_set_runs. cbn [runs set_runs app].
    rewrite Hfix, <- E. apply set_runs_runs.
Qed.

Lemma written_back_plain f : plain_values f -> written_back f = f.
Proof.
  intros [Hn Hz]. destruct f as [b i u fn fs fc].
  unfold written_back, _extract_run_formatting, _apply_run_formatting. simpl in *.
  f_equal.
  - by destruct b.
  - by destruct i.
  - by destruct u.
  - by destruct fn as [[|]|].
  - destruct fs as [z|]; [|done]. destruct (Z.eqb_spec z 0); [by subst|done].
  - by destruct fc.
Qed.

Lemma contains_occurrences cs search repl cm n cm' :
  search <> [] -> Substituted cs search repl cm n cm' ->
  contains search (List.map ch cm) = true -> 0 < n.
Proof.
  intros Hs H Hc. destruct n; [|lia]. exfalso.
  apply contains_drop in Hc as [i Hi].
  pose proof (Substituted_zero_no_match _ _ _ _ _ i Hs H) as Hno.
  destruct cs; [congruence|]. apply match_here_weaken in Hi. congruence.
Qed.

(** ** Bullet expansion *)

Lemma find_from_found sub text pos :
  contains sub text = true -> (0 <= find_from sub text pos)%Z.
Proof.
  revert pos. induction text as [|c text IH]; intros pos H;
    cbn [contains find_from] in *.
  - rewrite orb_false_r in H. rewrite H. lia.
  - destruct (match_here true sub (c :: text)); [lia|]. by apply IH.
Qed.

Lemma first_containing_none search blocks k :
  Forall (without_token search) blocks -> first_containing search blocks k = None.
Proof.
  intros H. revert k. induction H as [|b blocks Hb _ IH]; intros k; [done|].
  destruct b as [p|t]; simpl in *; [rewrite Hb|]; apply IH.
Qed.

Lemma first_containing_found search before p after k :
  Forall (without_token search) before ->
  contains search (paragraph_text p) = true ->
  first_containing search (before ++ BlockP p :: after) k
  = Some (k + length before, p).
Proof.
  intros H Hp. revert k. induction H as [|b blocks Hb _ IH]; intros k.
  - simpl. rewrite Hp. do 2 f_equal. lia.
  - destruct b as [q|t]; simpl in *; [rewrite Hb|]; rewrite IH;
      do 2 f_equal; lia.
Qed.

Lemma insert_bullets_app d template index items :
  forall i pre post,
    length pre = index + i ->
    insert_bullets d template index i items (pre ++ post)
    = pre ++ List.map (fun item => BlockP (new_bullet_paragraph d template item)) items
      ++ post.
Proof.
  induction items as [|item items IH]; intros i pre post Hl; [done|].
  cbn [insert_bullets]. unfold insert_at.
  rewrite <- Hl, take_app_length, drop_app_length.
  rewrite (cons_middle _ pre post), app_assoc.
  rewrite IH by (rewrite length_app; simpl; lia).
  by rewrite <- app_assoc.
Qed.

Lemma new_bullet_paragraph_text d template item :
  paragraph_text (new_bullet_paragraph d template item) = bullet_text item.
Proof.
  unfold new_bullet_paragraph, paragraph_text, bullet_text.
  destruct template; simpl; by rewrite app_nil_r.
Qed.

Lemma bullet_formatting_layout d p : bullet_layout (_apply_bullet_formatting d p).
Proof. by repeat split. Qed.

Lemma bullet_formatting_text d p :
  paragraph_text (_apply_bullet_formatting d p) = paragraph_text p.
Proof. done. Qed.

Lemma Substituted_whole cs search repl cm n cm' :
  search <> [] -> matches cs search (List.map ch cm) ->
  Substituted cs search repl cm n cm' ->
  n = 1 /\ List.map ch cm' = repl.
Proof.
  intros Hs Hm H. pose proof (matches_length _ _ _ Hm) as Hl.
  rewrite length_map in Hl.
  inversion H as [|first span rest n0 rest' Hm' Hrest|e rest n0 rest' Hno Hrest]; subst.
  - destruct search; [done|discriminate].
  - pose proof (matches_length _ _ _ Hm') as Hl'. rewrite length_map in Hl'.
    assert (rest = []) as ->.
    { simpl in Hl, Hl'. rewrite length_app in Hl. destruct rest; [done|simpl in *; lia]. }
    inversion Hrest; subst.
    split; [done|]. by rewrite app_nil_r, map_ch_tagged.
  - exfalso. apply Hno. exists (List.map ch (e :: rest)), []. by rewrite app_nil_r.
Qed.

(** ** Placeholders *)

Lemma until_rbrace_spec text :
  let (body, tl) := Re.until_rbrace text in
  text = body ++ tl /\ (RBRACE ∉ body)
  /\ match tl with [] => True | c :: _ => c = RBRACE end.
Proof.
  induction text as [|c text IH]; simpl.
  - repeat split. apply not_elem_of_nil.
  - destruct (N.eqb_spec c RBRACE) as [->|Hc].
    + repeat split. apply not_elem_of_nil.
    + destruct (Re.until_rbrace text) as [body tl].
      destruct IH as (-> & Hb & Htl). repeat split; [|done].
      apply not_elem_of_cons. split; [congruence|done].
Qed.

Lemma until_rbrace_app body rest :
  RBRACE ∉ body ->
  Re.until_rbrace (body ++ RBRACE :: rest) = (body, RBRACE :: rest).
Proof.
  induction body as [|c body IH]; intros Hb; simpl.
  - done.
  - apply not_elem_of_cons in Hb as [Hc Hb].
    destruct (N.eqb_spec c RBRACE) as [->|_]; [done|]. by rewrite IH.
Qed.

Lemma placeholder_here_Some text body :
  Re.placeholder_here text = Some body ->
  exists rest, body <> [] /\ (RBRACE ∉ body) /\ text = token body ++ rest.
Proof.
  unfold Re.placeholder_here. intros H.
  destruct text as [|c1 [|c2 t]]; try discriminate.
  destruct (N.eqb_spec c1 LBRACE) as [->|]; [|discriminate].
  destruct (N.eqb_spec c2 LBRACE) as [->|]; [|discriminate].
  cbn [andb] in H.
  pose proof (until_rbrace_spec t) as Hs.
  destruct (Re.until_rbrace t) as [b tl]. destruct Hs as (-> & Hb & _).
  destruct b as [|b0 b]; [discriminate|].
  destruct tl as [|d1 [|d2 tl]]; try discriminate.
  destruct (N.eqb_spec d1 RBRACE) as [->|]; [|discriminate].
  destruct (N.eqb_spec d2 RBRACE) as [->|]; [|discriminate].
  cbn [andb] in H. injection H as <-.
  exists tl. repeat split; [done|done|].
  unfold token. by rewrite <- !app_assoc.
Qed.

Lemma placeholder_here_token body rest :
  body <> [] -> RBRACE ∉ body ->
  Re.placeholder_here (token body ++ rest) = Some body.
Proof.
  intros Hne Hb. unfold token. rewrite <- !app_assoc.
  cbn [app]. unfold Re.placeholder_here. rewrite !N.eqb_refl. cbn [andb].
  rewrite (until_rbrace_app body (RBRACE :: rest) Hb).
  destruct body; [done|]. by rewrite !N.eqb_refl.
Qed.

Lemma placeholder_here_None text :
  Re.placeholder_here text = None -> ~ token_starts text.
Proof.
  intros H (body & rest & Hne & Hb & ->).
  by rewrite placeholder_here_token in H.
Qed.

Lemma placeholders_from_skip k text :
  k <= length text ->
  Re.placeholders_from k text = Re.placeholders_from 0 (drop k text).
Proof.
  revert k. induction text as [|c text IH]; intros k Hk.
  - simpl in Hk. by assert (k = 0) as -> by lia.
  - destruct k as [|k]; [done|]. simpl in *. apply IH. lia.
Qed.

Lemma findall_placeholders_Tokens text :
  Tokens text (Re.findall_placeholders text).
Proof.
  unfold Re.findall_placeholders.
  remember (length text) as k eqn:Hk. revert text Hk.
  induction k as [k IH] using lt_wf_ind. intros text Hk.
  destruct text as [|c text]; [constructor|].
  cbn [Re.placeholders_from].
  destruct (Re.placeholder_here (c :: text)) as [body|] eqn:E.
  - destruct (placeholder_here_Some _ _ E) as (rest & Hne & Hb & Heq).
    rewrite Heq. unfold token in Heq. rewrite <- !app_assoc in Heq.
    cbn [app] in Heq. injection Heq as -> ->.
    rewrite placeholders_from_skip
      by (simpl; rewrite length_app; simpl; lia).
    assert (drop (length body + 3) (LBRACE :: body ++ RBRACE :: RBRACE :: rest)
            = rest) as ->.
    { change (LBRACE :: body ++ RBRACE :: RBRACE :: rest)
        with ((LBRACE :: body) ++ [RBRACE; RBRACE] ++ rest).
      rewrite app_assoc. apply drop_app_length'.
      rewrite length_app. simpl. lia. }
    constructor; [done|done|].
    apply (IH (length rest)); [|done]. subst k.
    simpl. rewrite length_app. simpl. lia.
  - constructor; [by apply placeholder_here_None|].
    apply (IH (length text)); [subst k; simpl; lia | done].
Qed.

(** ** The path resolver *)

Lemma nested_loop_resolve isdigit_char int keys :
  forall value,
    match nested_loop isdigit_char int value keys with
    | Ok v => v = default DNone (resolve_path isdigit_char int value keys)
    | Raise e => e = ValueError /\ resolve_path isdigit_char int value keys = None
    end.
Proof.
  induction keys as [|key keys IH]; intros value; [done|].
  cbn [nested_loop resolve_path]. unfold resolve_segment.
  destruct (isdigit isdigit_char key).
  - destruct value as [| | | | |items|]; try done.
    destruct (int key) as [index|]; [|done]. cbn [mbind option_bind].
    destruct (Nat.ltb_spec index (length items)) as [Hlt|Hge].
    + destruct (lookup_lt_is_Some_2 items index Hlt) as [item Hitem].
      rewrite Hitem. apply IH.
    + by rewrite (lookup_ge_None_2 items index Hge).
  - destruct value as [| | | | | |entries]; try done.
    destruct (dict_get entries key) as [item|]; [|done]. apply IH.
Qed.

Lemma get_nested_resolve isdigit_char int data path :
  _get_nested_json_value isdigit_char int data path
  = Ok (default DNone (resolve isdigit_char int data path)).
Proof.
  unfold _get_nested_json_value, resolve.
  pose proof (nested_loop_resolve isdigit_char int (split DOT path) data) as H.
  destruct (nested_loop _ _ _ _) as [v|e].
  - by subst.
  - destruct H as [-> ->]. done.
Qed.

(** ** The categories *)

Lemma categorize_case k k' :
  lower k = lower k' -> _categorize_placeholder k = _categorize_placeholder k'.
Proof. unfold _categorize_placeholder. by intros ->. Qed.

(** ** Replacement count accuracy *)

(** Steps of a derivation of [Subst] or [Substituted] on a given text. *)
Ltac subst_other :=
  first [ apply Subst_other | apply Substituted_other ];
  [ apply match_here_not_occurs; reflexivity | ].

Ltac subst_occurrence m rest n r :=
  lazymatch goal with
  | |- Subst ?cs ?s ?rp _ _ _ =>
      change (Subst cs s rp (m ++ rest) (S n) (rp ++ r));
      apply Subst_occurrence; [reflexivity|]
  end.

Ltac substituted_occurrence first span rest n r :=
  lazymatch goal with
  | |- Substituted ?cs ?s ?rp _ _ _ =>
      change (Substituted cs s rp (first :: span ++ rest) (S n)
                (tagged (formatting first) rp ++ r));
      apply Substituted_occurrence; [reflexivity|]
  end.




(** ** Formatting inheritance *)




(** ** The empty search string *)

(** C3 (what the code does).  With an empty search string and
    [preserve_formatting], [find_and_replace_text] raises as soon as a
    paragraph has a run: the match at the end of the text indexes the
    character map out of range. *)
Theorem empty_search_raises d repl cs :
  Exists (fun p => runs p <> []) (visited_paragraphs d) ->
  exists d',
    find_and_replace_text (loaded d) [] repl true cs
    = (loaded d', Raise EditOperationError)
    /\ visited_paragraphs d' = visited_paragraphs d.
Proof. apply empty_search_document. Qed.

Lemma empty_search_raises_witness :
  Exists (fun p => runs p <> []) (visited_paragraphs letter_document)
  /\ exists d',
       find_and_replace_text (loaded letter_document) [] (str "X") true true
       = (loaded d', Raise EditOperationError)
       /\ visited_paragraphs d' = visited_paragraphs letter_document.
Proof.
  assert (Exists (fun p => runs p <> []) (visited_paragraphs letter_document)) as H
    by (apply Exists_cons_hd; discriminate).
  split; [exact H|].
  exact (empty_search_raises letter_document (str "X") true H).
Defined.

(** Without [preserve_formatting] the replacement is inserted at every
    position and counted as many times. *)
Example empty_search_everywhere :
  exists p',
    _replace_text_in_paragraph (plain "ab") [] (str "X") false true = Ok (p', 3)
    /\ paragraph_text p' = str "XaXbX".
Proof. eexists. split; reflexivity. Qed.

(** ** Replacing a string with itself *)

(** C4 (as amended).  When every occurrence of the non-empty [s] in the
    paragraph is uniformly formatted, replacing [s] with itself keeps every
    character and its formatting as [_apply_run_formatting] writes it
    back; when moreover the runs are already coalesced, the paragraph is
    unchanged, run boundaries included. *)
Theorem noop_replacement p s :
  s <> [] ->
  contains s (paragraph_text p) = true ->
  uniform_matches s p = true ->
  exists p' n,
    _replace_text_in_paragraph p s s true true = Ok (p', n)
    /\ 0 < n
    /\ build_char_map p' = List.map rewritten (build_char_map p)
    /\ (coalesced p = true -> p' = p).
Proof.
  intros Hs Hc Hu.
  destruct (Substituted_total true s s (build_char_map p) Hs) as (n & cm' & H).
  assert (0 < n) as Hn.
  { apply (contains_occurrences true s s _ _ _ Hs H).
    by rewrite <- paragraph_text_map. }
  assert (cm' = build_char_map p) as ->.
  { apply (uniform_noop s _ n _ Hs H []). unfold uniform_matches in Hu.
    by rewrite paragraph_text_map in Hu. }
  exists (_rebuild_paragraph_with_formatting p (build_char_map p)), n.
  split; [|split; [done|split]].
  - unfold _replace_text_in_paragraph.
    destruct (runs p) as [|r rs] eqn:E.
    { unfold paragraph_text in Hc. rewrite E in Hc. simpl in Hc.
      rewrite orb_false_r in Hc. by destruct s. }
    rewrite Hc. cbn [negb]. rewrite (preserve_correct _ _ _ _ _ _ Hs H).
    apply Nat.ltb_lt in Hn. by rewrite Hn.
  - apply rebuild_map.
  - apply rebuild_coalesced.
Qed.

Lemma noop_replacement_witness :
  str "BOLD" <> []
  /\ contains (str "BOLD") (paragraph_text bold_paragraph) = true
  /\ uniform_matches (str "BOLD") bold_paragraph = true
  /\ exists p' n,
       _replace_text_in_paragraph bold_paragraph (str "BOLD") (str "BOLD")
         true true = Ok (p', n)
       /\ 0 < n
       /\ build_char_map p' = List.map rewritten (build_char_map bold_paragraph)
       /\ (coalesced bold_paragraph = true -> p' = bold_paragraph).
Proof.
  assert (str "BOLD" <> []) as Hs by discriminate.
  assert (contains (str "BOLD") (paragraph_text bold_paragraph) = true) as Hc
    by reflexivity.
  assert (uniform_matches (str "BOLD") bold_paragraph = true) as Hu by reflexivity.
  split; [exact Hs|]. split; [exact Hc|]. split; [exact Hu|].
  exact (noop_replacement bold_paragraph (str "BOLD") Hs Hc Hu).
Defined.

(** C4, counterexample.  ["bc"] straddles the bold run ["ab"] and the run
    ["cd"]: replaced by itself it becomes bold as a whole, and the runs
    are ["abc"] and ["d"]. *)
Lemma noop_replacement_straddles :
  coalesced straddled_paragraph = true
  /\ exists p',
       _replace_text_in_paragraph straddled_paragraph (str "bc") (str "bc")
         true true = Ok (p', 1)
       /\ List.map run_text (runs p') = [str "abc"; str "d"]
       /\ List.map run_text (runs straddled_paragraph) = [str "ab"; str "cd"]
       /\ List.map formatting (build_char_map p')
          <> List.map formatting (build_char_map straddled_paragraph).
Proof.
  split; [reflexivity|]. eexists. split; [reflexivity|].
  split; [reflexivity|]. split; [reflexivity|]. discriminate.
Qed.

(** ** Bullet expansion *)




(** ** Discovery of the placeholders *)

(** C6 (as amended).  The placeholders over which the expansion iterates
    are the tokens of the text of the top-level paragraphs, joined by
    newlines, read from left to right: each occurrence gives its body
    once, in the order of the occurrences. *)
Theorem discovered_tokens (self : ResumeProcessor) :
  Tokens (get_document_text (processor self)) (discovered_placeholders self).
Proof. apply findall_placeholders_Tokens. Qed.

(** C6, counterexample.  The distinct bodies of the tokens of all the
    paragraphs are [a] and [b]; the pass lists [a] twice, once for each
    occurrence, and does not list [b], the token of a table cell. *)
Lemma discovered_tokens_repeated_and_missed :
  distinct [] (flat_map Re.findall_placeholders (texts tokens_document))
  = [str "a"; str "b"]
  /\ discovered_placeholders (resume_of tokens_document) = [str "a"; str "a"]
  /\ ~ NoDup (discovered_placeholders (resume_of tokens_document))
  /\ (exists p, p ∈ visited_paragraphs tokens_document
                /\ Tokens (paragraph_text p) [str "b"])
  /\ str "b" ∉ discovered_placeholders (resume_of tokens_document).
Proof.
  split; [reflexivity|]. split; [reflexivity|]. split; [|split].
  - intros H. apply NoDup_cons in H as [H _]. apply H. by left.
  - exists (plain "{{b}}"). split.
    + apply elem_of_app. right. by left.
    + change (paragraph_text (plain "{{b}}")) with (token (str "b") ++ []).
      apply Tokens_token; [discriminate| |constructor].
      intros H. by apply list_elem_of_singleton in H.
  - intros H. change (discovered_placeholders (resume_of tokens_document))
      with [str "a"; str "a"] in H.
    apply elem_of_cons in H as [H|H]; [discriminate|].
    by apply list_elem_of_singleton in H.
Qed.

(** ** Path resolution *)


Example resolve_contact_email :
  _get_nested_json_value ascii_isdigit ascii_int sample_tree (str "contact.email")
  = Ok (DStr (str "x@y.com")).
Proof. reflexivity. Qed.

Example resolve_company :
  _get_nested_json_value ascii_isdigit ascii_int sample_tree
    (str "professional_experience.0.company")
  = Ok (DStr (str "Acme")).
Proof. reflexivity. Qed.

Example resolve_nonexistent :
  _get_nested_json_value ascii_isdigit ascii_int sample_tree
    (str "nonexistent.field")
  = Ok DNone.
Proof. reflexivity. Qed.

(** ** A paragraph that fails *)




(** ** Case rules of the placeholders *)




(** ** The replacement as a regular expression template *)


(** * Further properties *)

Import DocxEdit ResumeData Api Layout Requests.

(** * Further properties of the engine *)

(** ** A search string that is not there *)

Lemma for_each_unchanged {A} (f : A -> A * result nat) (l : list A) :
  Forall (fun x => f x = (x, Ok 0)) l -> for_each f l = (l, Ok 0).
Proof.
  induction 1 as [|x l Hx _ IH]; [done|].
  cbn [for_each]. by rewrite Hx, IH.
Qed.

Lemma set_body_body d : set_body d (body d) = d.
Proof. by destruct d. Qed.

Lemma absent_paragraph p search repl pf cs :
  runs p = [] \/ found cs search (paragraph_text p) = false ->
  _replace_text_in_paragraph p search repl pf cs = Ok (p, 0).
Proof.
  intros [H|H]; unfold _replace_text_in_paragraph.
  - by rewrite H.
  - destruct (runs p); [done|]. fold (found cs search (paragraph_text p)).
    by rewrite H.
Qed.



(** ** The shape of the document *)

Lemma same_layout_refl p : same_layout p p.
Proof. by repeat split. Qed.

Lemma same_layout_trans p q r :
  same_layout p q -> same_layout q r -> same_layout p r.
Proof.
  intros (?&?&?&?&?) (?&?&?&?&?). repeat split; congruence.
Qed.

Lemma same_layout_set_runs p rs : same_layout p (set_runs p rs).
Proof. by repeat split. Qed.

Lemma rebuild_loop_layout p t f items : same_layout p (rebuild_loop p t f items).
Proof.
  revert p t f. induction items as [|item rest IH]; intros p t f.
  - simpl. destruct t; [apply same_layout_refl | apply same_layout_set_runs].
  - cbn [rebuild_loop]. destruct (decide (formatting item = f)); [apply IH|].
    destruct t; [apply IH|].
    eapply same_layout_trans; [|apply IH]. apply same_layout_set_runs.
Qed.

Lemma rebuild_layout p cm :
  same_layout p (_rebuild_paragraph_with_formatting p cm).
Proof.
  unfold _rebuild_paragraph_with_formatting. destruct cm.
  - apply same_layout_set_runs.
  - eapply same_layout_trans; [|apply rebuild_loop_layout].
    apply same_layout_set_runs.
Qed.

Lemma preservation_layout p search repl cs p' n :
  _replace_with_formatting_preservation p search repl cs = Ok (p', n) ->
  same_layout p p'.
Proof.
  unfold _replace_with_formatting_preservation.
  destruct (Re.finditer cs search _) as [|m ms].
  - intros [= <- <-]. apply same_layout_refl.
  - destruct (splice_loop _ _ _ _) as [[cm k]|e]; [|done].
    simpl. intros [= <- <-]. destruct (0 <? k).
    + apply rebuild_layout.
    + apply same_layout_refl.
Qed.

Lemma paragraph_layout p search repl pf cs p' n :
  _replace_text_in_paragraph p search repl pf cs = Ok (p', n) ->
  same_layout p p'.
Proof.
  unfold _replace_text_in_paragraph.
  destruct (runs p); [intros [= <- <-]; apply same_layout_refl|].
  destruct (negb _); [intros [= <- <-]; apply same_layout_refl|].
  destruct pf; [apply preservation_layout|].
  destruct (if cs then _ else _) as [new_text|e]; [|done]. simpl.
  destruct (decide _); intros [= <- <-].
  - by repeat split.
  - apply same_layout_refl.
Qed.

Lemma in_place_layout (f : Paragraph -> result (Paragraph * nat)) p :
  (forall p' n, f p = Ok (p', n) -> same_layout p p') ->
  same_layout p (in_place f p).1.
Proof.
  intros H. unfold in_place. destruct (f p) as [[p' n]|e]; simpl.
  - by eapply H.
  - apply same_layout_refl.
Qed.

Lemma for_each_Forall2 {A} (R : A -> A -> Prop) (f : A -> A * result nat) l :
  (forall x, R x (f x).1) -> (forall x, R x x) ->
  Forall2 R l (for_each f l).1.
Proof.
  intros Hf Hrefl. induction l as [|x l IH]; [constructor|].
  cbn [for_each]. pose proof (Hf x) as Hx.
  destruct (f x) as [x' [n|e]]; simpl in *.
  - destruct (for_each f l) as [l' r]. simpl in *. by constructor.
  - constructor; [done|]. apply Forall_Forall2_diag, Forall_forall. auto.
Qed.

Lemma same_shape_refl b : same_shape b b.
Proof.
  destruct b as [p|t]; simpl; [apply same_layout_refl|].
  apply Forall_Forall2_diag, Forall_forall. intros r _.
  apply Forall_Forall2_diag, Forall_forall. intros c _.
  apply Forall_Forall2_diag, Forall_forall. intros p _.
  apply same_layout_refl.
Qed.

Lemma Forall2_trans' {A} (R : A -> A -> Prop) l1 l2 l3 :
  (forall x y z, R x y -> R y z -> R x z) ->
  Forall2 R l1 l2 -> Forall2 R l2 l3 -> Forall2 R l1 l3.
Proof.
  intros HR H. revert l3. induction H; intros l3 H3; inversion H3; subst;
    constructor; eauto.
Qed.

Lemma same_shape_trans a b c : same_shape a b -> same_shape b c -> same_shape a c.
Proof.
  destruct a, b, c; simpl; try done.
  - apply same_layout_trans.
  - apply Forall2_trans'. intros ???. apply Forall2_trans'. intros ???.
    apply Forall2_trans'. intros ???. apply same_layout_trans.
Qed.

Lemma replace_shape d search repl pf cs :
  exists d',
    (find_and_replace_text (loaded d) search repl pf cs).1 = loaded d'
    /\ Forall2 same_shape (body d) (body d')
    /\ style_names d' = style_names d.
Proof.
  unfold find_and_replace_text. cbn [document loaded].
  set (g := in_place (fun paragraph =>
    _replace_text_in_paragraph paragraph search repl pf cs)).
  assert (forall p, same_layout p (g p).1) as Hg.
  { intros p. apply in_place_layout. intros p' n. apply paragraph_layout. }
  assert (Forall2 same_shape (body d) (for_each (on_paragraph g) (body d)).1) as H1.
  { apply for_each_Forall2; [|apply same_shape_refl].
    intros [p|t]; simpl; [|apply (same_shape_refl (BlockT t))].
    pose proof (Hg p). by destruct (g p). }
  destruct (for_each (on_paragraph g) (body d)) as [body1 r1]. simpl in H1.
  destruct r1 as [n1|e1]; [|by eexists].
  assert (Forall2 same_shape body1
            (for_each (on_table (for_each (for_each (for_each g)))) body1).1) as H2.
  { apply for_each_Forall2; [|apply same_shape_refl].
    intros [p|t]; simpl; [apply same_layout_refl|].
    assert (Forall2 (Forall2 (Forall2 same_layout)) t
              (for_each (for_each (for_each g)) t).1) as Ht.
    { apply for_each_Forall2.
      - intros r. apply for_each_Forall2.
        + intros c. apply for_each_Forall2; [apply Hg|apply same_layout_refl].
        + intros c. apply Forall_Forall2_diag, Forall_forall. intros p _.
          apply same_layout_refl.
      - intros r. apply Forall_Forall2_diag, Forall_forall. intros c _.
        apply Forall_Forall2_diag, Forall_forall. intros p _.
        apply same_layout_refl. }
    by destruct (for_each (for_each (for_each g)) t). }
  destruct (for_each (on_table _) body1) as [body2 r2]. simpl in H2.
  assert (Forall2 same_shape (body d) body2) as H.
  { eapply Forall2_trans'; [|exact H1|exact H2]. apply same_shape_trans. }
  destruct r2; by eexists.
Qed.

(** X2.  Whatever the arguments and whether it returns or raises,
    [find_and_replace_text] keeps the shape of the document: as many
    blocks, in every table as many rows, cells and paragraphs, and for
    every paragraph the same style and layout; the styles of the document
    are the same. *)
Theorem replace_keeps_shape d search repl pf cs :
  exists d',
    (find_and_replace_text (loaded d) search repl pf cs).1 = loaded d'
    /\ Forall2 same_shape (body d) (body d')
    /\ style_names d' = style_names d.
Proof. apply replace_shape. Qed.

(** ** When the replacement cannot fail *)

Lemma Subst_total cs search repl text :
  search <> [] -> exists n r, Subst cs search repl text n r.
Proof.
  intros Hs.
  destruct (Substituted_total cs search repl (tagged default_formatting text) Hs)
    as (n & cm' & H).
  apply Substituted_text in H. rewrite map_ch_tagged in H. eauto.
Qed.

Lemma DocSubst_total cs search repl pf texts :
  search <> [] -> exists n rs, DocSubst cs search repl pf texts n rs.
Proof.
  intros Hs. induction texts as [|t texts (n & rs & IH)].
  - eexists _, _. constructor.
  - destruct (Subst_total cs search repl t Hs) as (m & r & H).
    eexists _, _. by constructor.
Qed.

Lemma for_each_ok (f : Paragraph -> result (Paragraph * nat)) ps :
  Forall (fun p => exists p' n, f p = Ok (p', n)) ps ->
  exists ps' n, for_each (in_place f) ps = (ps', Ok n).
Proof.
  induction 1 as [|p ps (p' & n & Hp) _ (ps' & m & IH)].
  - by eexists _, _.
  - cbn [for_each]. unfold in_place at 1. rewrite Hp, IH. by eexists _, _.
Qed.

Lemma literal_paragraph_ok p search repl :
  BACKSLASH ∉ repl ->
  exists p' n, _replace_text_in_paragraph p search repl false false = Ok (p', n).
Proof.
  intros Hb. unfold _replace_text_in_paragraph.
  destruct (runs p); [by eexists _, _|].
  destruct (negb _); [by eexists _, _|].
  unfold Re.sub.
  assert (existsb (N.eqb BACKSLASH) repl = false) as ->.
  { apply not_true_is_false. intros (c & Hc & Heq)%existsb_exists.
    apply N.eqb_eq in Heq as <-. by apply Hb, list_elem_of_In. }
  simpl. destruct (decide _); by eexists _, _.
Qed.

Lemma replace_ok d search repl pf cs :
  search <> [] ->
  pf = true \/ cs = true \/ BACKSLASH ∉ repl ->
  exists d' n,
    find_and_replace_text (loaded d) search repl pf cs = (loaded d', Ok n).
Proof.
  intros Hs Hmode.
  assert (pf = true \/ cs = true \/ (pf = false /\ cs = false /\ BACKSLASH ∉ repl))
    as [H|[H|(-> & -> & H)]].
  { destruct pf; [by left|]. destruct cs; [by right; left|].
    right. right. by destruct Hmode as [?|[?|?]]. }
  - destruct (DocSubst_total cs search repl pf (texts d) Hs) as (n & rs & HD).
    destruct (document_correct pf cs search repl d n rs (or_introl H) Hs HD)
      as (d' & Hd & _). eauto.
  - destruct (DocSubst_total cs search repl pf (texts d) Hs) as (n & rs & HD).
    destruct (document_correct pf cs search repl d n rs (or_intror H) Hs HD)
      as (d' & Hd & _). eauto.
  - destruct (find_and_replace_flat d search repl false false) as (d' & Hd & _).
    destruct (for_each_ok
      (fun p => _replace_text_in_paragraph p search repl false false)
      (visited_paragraphs d)) as (ps' & n & Hps).
    { apply Forall_forall. intros p _. by apply literal_paragraph_ok. }
    exists d', n. by rewrite Hd, Hps.
Qed.



(** ** The runs that the rebuilder makes *)

Lemma rebuild_loop_nonempty p t f items :
  Forall (fun r => run_text r <> []) (runs p) ->
  Forall (fun r => run_text r <> []) (runs (rebuild_loop p t f items)).
Proof.
  revert p t f. induction items as [|item rest IH]; intros p t f Hp.
  - simpl. destruct t as [|c t]; [done|]. simpl.
    apply Forall_app. split; [done|]. by apply Forall_singleton.
  - cbn [rebuild_loop]. destruct (decide (formatting item = f)); [by apply IH|].
    apply IH. destruct t as [|c t]; [done|]. simpl.
    apply Forall_app. split; [done|]. by apply Forall_singleton.
Qed.

Lemma rebuild_loop_count p t f items :
  t <> [] ->
  length (runs (rebuild_loop p t f items))
  = length (runs p) + changes_from f items + 1.
Proof.
  revert p t f. induction items as [|item rest IH]; intros p t f Ht.
  - destruct t as [|c t]; [done|]. simpl. rewrite length_app. simpl. lia.
  - cbn [rebuild_loop changes_from].
    destruct (decide (formatting item = f)) as [->|Hne].
    + rewrite IH by (by destruct t). lia.
    + destruct t as [|c t]; [done|]. rewrite IH by done.
      simpl. rewrite length_app. simpl. lia.
Qed.


(** X5.  The rebuilder makes one run for each stretch of equal
    formatting: one more run than there are places in the map where the
    formatting changes, and no run for the empty map. *)
Theorem rebuilt_run_count p cm :
  length (runs (_rebuild_paragraph_with_formatting p cm))
  = match cm with
    | [] => 0
    | first :: rest => S (changes_from (formatting first) rest)
    end.
Proof.
  unfold _rebuild_paragraph_with_formatting. destruct cm as [|first rest]; [done|].
  cbn [rebuild_loop]. rewrite decide_True by done.
  rewrite rebuild_loop_count by done. simpl. lia.
Qed.

(** ** Without preservation *)

Lemma paragraph_reset p search repl cs p' n :
  _replace_text_in_paragraph p search repl false cs = Ok (p', n) ->
  reset_or_same p p'.
Proof.
  unfold _replace_text_in_paragraph.
  destruct (runs p); [intros [= <- <-]; by left|].
  destruct (negb _); [intros [= <- <-]; by left|].
  destruct (if cs then _ else _) as [new_text|e]; [|done]. simpl.
  destruct (decide _); intros [= <- <-]; [|by left].
  right. by exists new_text.
Qed.


(** ** The text of the document *)

Lemma contains_app_r sub a b :
  contains sub b = true -> contains sub (a ++ b) = true.
Proof.
  intros H. induction a as [|c a IH]; [done|].
  cbn [app contains]. rewrite IH. apply orb_true_r.
Qed.

Lemma match_here_self sub b : match_here true sub (sub ++ b) = true.
Proof.
  induction sub as [|c sub IH]; [done|]. simpl. by rewrite N.eqb_refl, IH.
Qed.

Lemma contains_middle sub a b : contains sub (a ++ sub ++ b) = true.
Proof.
  apply contains_app_r. destruct (sub ++ b) eqn:E; simpl;
    rewrite <- E, match_here_self; done.
Qed.

Lemma join_elem sep (parts : list pystr) part :
  part ∈ parts -> exists a b, join sep parts = a ++ part ++ b.
Proof.
  induction parts as [|p parts IH]; intros H; [by apply elem_of_nil in H|].
  apply elem_of_cons in H as [->|H].
  - destruct parts as [|q parts].
    + exists [], []. by rewrite app_nil_r.
    + exists [], (sep ++ join sep (q :: parts)). done.
  - destruct (IH H) as (a & b & Hab). destruct parts as [|q parts].
    + by apply elem_of_nil in H.
    + exists (p ++ sep ++ a), b. cbn [join]. cbn [join] in Hab.
      rewrite Hab. by rewrite <- !app_assoc.
Qed.

(** X7.  The text of every top-level paragraph occurs in
    [get_document_text]. *)
Theorem document_text_contains d p :
  p ∈ paragraphs d ->
  contains (paragraph_text p) (get_document_text (loaded d)) = true.
Proof.
  intros H. unfold get_document_text. cbn [document loaded].
  destruct (join_elem [NEWLINE] (List.map paragraph_text (paragraphs d))
              (paragraph_text p)) as (a & b & ->).
  { apply list_elem_of_In, in_map, list_elem_of_In, H. }
  apply contains_middle.
Qed.

Lemma document_text_contains_witness :
  bold_paragraph ∈ paragraphs bold_document
  /\ contains (paragraph_text bold_paragraph)
       (get_document_text (loaded bold_document)) = true.
Proof.
  assert (bold_paragraph ∈ paragraphs bold_document) as H by (by left).
  split; [exact H|].
  exact (document_text_contains bold_document bold_paragraph H).
Defined.

(** ** Adding a paragraph *)

Lemma join_snoc sep (parts : list pystr) part :
  parts <> [] -> join sep (parts ++ [part]) = join sep parts ++ sep ++ part.
Proof.
  induction parts as [|p parts IH]; [done|]. intros _.
  destruct parts as [|q parts]; [done|].
  change ((p :: q :: parts) ++ [part]) with (p :: ((q :: parts) ++ [part])).
  change (join sep (p :: (q :: parts) ++ [part]))
    with (p ++ sep ++ join sep ((q :: parts) ++ [part])).
  rewrite IH by done. cbn [join]. by rewrite <- !app_assoc.
Qed.

Lemma add_paragraph_body d original_styles text style :
  exists p',
    add_paragraph (loaded d) original_styles text style
    = (loaded (set_body d (body d ++ [BlockP p'])), Ok tt)
    /\ paragraph_text p' = text
    /\ paragraphs (set_body d (body d ++ [BlockP p'])) = paragraphs d ++ [p']
    /\ tables (set_body d (body d ++ [BlockP p'])) = tables d
    /\ get_document_text (loaded (set_body d (body d ++ [BlockP p'])))
       = match paragraphs d with
         | [] => text
         | _ :: _ => get_document_text (loaded d) ++ [NEWLINE] ++ text
         end.
Proof.
  unfold add_paragraph. cbn [document loaded].
  eexists. split; [reflexivity|].
  match goal with |- paragraph_text ?q = _ /\ _ => set (p' := q) end.
  assert (paragraph_text p' = text) as Ht.
  { unfold p'. destruct text as [|c text];
      destruct style as [[|s0 s]|]; try done;
      try (destruct (decide _)); unfold paragraph_text; simpl;
      by rewrite ?app_nil_r. }
  assert (paragraphs (set_body d (body d ++ [BlockP p'])) = paragraphs d ++ [p'])
    as Hp by (unfold paragraphs; simpl; by rewrite flat_map_app).
  split; [done|]. split; [done|]. split.
  - unfold tables. simpl. by rewrite flat_map_app, app_nil_r.
  - unfold get_document_text. cbn [document loaded]. rewrite Hp, map_app.
    cbn [List.map]. rewrite Ht.
    destruct (paragraphs d) as [|q ps]; [done|].
    by rewrite join_snoc.
Qed.


(** ** Removing the placeholder bullets *)

Lemma filter_keeps_paragraphs text blocks :
  flat_map block_paragraphs (List.filter (keeps_block text) blocks)
  = List.filter (fun p => negb (is_placeholder_bullet text p))
      (flat_map block_paragraphs blocks).
Proof.
  induction blocks as [|[p|t] blocks IH]; [done| |]; simpl.
  - destruct (is_placeholder_bullet text p); simpl; by rewrite IH.
  - done.
Qed.

Lemma filter_keeps_tables text blocks :
  flat_map block_tables (List.filter (keeps_block text) blocks)
  = flat_map block_tables blocks.
Proof.
  induction blocks as [|[p|t] blocks IH]; [done| |]; simpl.
  - by destruct (is_placeholder_bullet text p).
  - by rewrite IH.
Qed.

Lemma filter_split_length {A} (f : A -> bool) l :
  length (List.filter f l) + length (List.filter (fun x => negb (f x)) l)
  = length l.
Proof.
  induction l as [|x l IH]; [done|]. simpl. destruct (f x); simpl; lia.
Qed.

Lemma filter_idem {A} (f : A -> bool) l :
  List.filter f (List.filter f l) = List.filter f l.
Proof.
  induction l as [|x l IH]; [done|]. simpl. destruct (f x) eqn:E; [|done].
  simpl. by rewrite E, IH.
Qed.

Lemma filter_none {A} (f : A -> bool) l :
  List.filter f (List.filter (fun x => negb (f x)) l) = [].
Proof.
  induction l as [|x l IH]; [done|]. simpl. destruct (f x) eqn:E; [done|].
  simpl. by rewrite E.
Qed.

(** X9.  [remove_placeholder_bullet_points] returns the number of
    top-level paragraphs by which the document gets shorter, keeps the
    tables, and leaves no top-level paragraph that passes its test; a
    second call returns 0 and changes nothing. *)
Theorem remove_placeholder_bullets d text :
  exists d',
    remove_placeholder_bullet_points (loaded d) text
    = (loaded d', length (paragraphs d) - length (paragraphs d'))
    /\ length (paragraphs d') <= length (paragraphs d)
    /\ tables d' = tables d
    /\ Forall (fun p => is_placeholder_bullet text p = false) (paragraphs d')
    /\ remove_placeholder_bullet_points (loaded d') text = (loaded d', 0).
Proof.
  unfold remove_placeholder_bullet_points. cbn [document loaded].
  eexists. split; [|split; [|split; [|split]]].
  - f_equal. unfold paragraphs at 2 3. cbn [body set_body].
    rewrite filter_keeps_paragraphs. unfold paragraphs.
    pose proof (filter_split_length (is_placeholder_bullet text)
                  (flat_map block_paragraphs (body d))). lia.
  - unfold paragraphs. cbn [body set_body]. rewrite filter_keeps_paragraphs.
    pose proof (filter_split_length (is_placeholder_bullet text)
                  (flat_map block_paragraphs (body d))). lia.
  - unfold tables. cbn [body set_body]. apply filter_keeps_tables.
  - unfold paragraphs. cbn [body set_body]. rewrite filter_keeps_paragraphs.
    apply Forall_forall. intros p Hp.
    apply list_elem_of_In, filter_In in Hp as [_ Hp]. by apply negb_true_iff.
  - unfold paragraphs. cbn [body set_body].
    rewrite filter_keeps_paragraphs, filter_none, filter_idem. done.
Qed.

(** ** Paths in the data *)

Lemma split_nonempty sep text : split sep text <> [].
Proof.
  destruct text as [|c text]; [done|]. simpl.
  destruct (c =? sep)%N; [done|]. by destruct (split sep text).
Qed.

Lemma split_app sep p1 p2 :
  split sep (p1 ++ sep :: p2) = split sep p1 ++ split sep p2.
Proof.
  induction p1 as [|c p1 IH]; simpl.
  - by rewrite N.eqb_refl.
  - rewrite IH. destruct (c =? sep)%N; [done|].
    pose proof (split_nonempty sep p1). by destruct (split sep p1).
Qed.

Lemma nested_loop_none isdigit_char int keys :
  keys <> [] -> nested_loop isdigit_char int DNone keys = Ok DNone.
Proof.
  destruct keys as [|key keys]; [done|]. intros _. simpl.
  by destruct (isdigit isdigit_char key).
Qed.

Lemma nested_loop_app isdigit_char int keys1 keys2 value :
  keys2 <> [] ->
  nested_loop isdigit_char int value (keys1 ++ keys2)
  = (v <-! nested_loop isdigit_char int value keys1;
     nested_loop isdigit_char int v keys2).
Proof.
  intros Hne. revert value.
  induction keys1 as [|key keys1 IH]; intros value; [done|].
  cbn [app nested_loop].
  pose proof (nested_loop_none isdigit_char int keys2 Hne) as Hnone.
  destruct (isdigit isdigit_char key).
  - destruct value as [| | | | |items|]; try (simpl; by rewrite Hnone).
    destruct (int key) as [index|]; [|done].
    destruct (index <? length items); [|simpl; by rewrite Hnone].
    destruct (items !! index); [apply IH|done].
  - destruct value as [| | | | | |entries]; try (simpl; by rewrite Hnone).
    destruct (dict_get entries key); [apply IH|simpl; by rewrite Hnone].
Qed.

(** X10.  Paths compose: the value at the path [p1.p2] is the value at
    [p2] in the value at [p1]. *)
Theorem path_composition isdigit_char int (data : DataTree) (p1 p2 : pystr) :
  exists v,
    _get_nested_json_value isdigit_char int data p1 = Ok v
    /\ _get_nested_json_value isdigit_char int data (p1 ++ DOT :: p2)
       = _get_nested_json_value isdigit_char int v p2.
Proof.
  unfold _get_nested_json_value at 1 2. rewrite split_app.
  rewrite nested_loop_app by apply split_nonempty.
  pose proof (nested_loop_resolve isdigit_char int (split DOT p1) data) as H.
  destruct (nested_loop isdigit_char int data (split DOT p1)) as [v|e].
  - exists v. split; [done|]. simpl. unfold _get_nested_json_value.
    pose proof (nested_loop_resolve isdigit_char int (split DOT p2) v) as H2.
    destruct (nested_loop isdigit_char int v (split DOT p2)) as [w|e]; [done|].
    by destruct H2 as [-> _].
  - destruct H as [-> _]. exists DNone. split; [done|]. simpl.
    unfold _get_nested_json_value.
    by rewrite nested_loop_none by apply split_nonempty.
Qed.

Lemma nested_value_loop_agrees isdigit_char int keys value :
  Forall (fun key => isdigit isdigit_char key = false) keys ->
  nested_loop isdigit_char int value keys = Ok (nested_value_loop value keys).
Proof.
  intros H. revert value. induction H as [|key keys Hk _ IH]; intros value; [done|].
  cbn [nested_loop nested_value_loop]. rewrite Hk.
  destruct value as [| | | | | |entries]; try done.
  destruct (dict_get entries key); [apply IH|done].
Qed.

(** X11.  The two resolvers agree on a path none of whose segments is
    made of digits: [_get_nested_json_value] then gives the value of
    [_get_nested_value]. *)
Theorem resolvers_agree isdigit_char int (data : DataTree) (path : pystr) :
  Forall (fun key => isdigit isdigit_char key = false) (split DOT path) ->
  _get_nested_json_value isdigit_char int data path
  = Ok (_get_nested_value data path).
Proof.
  intros H. unfold _get_nested_json_value, _get_nested_value.
  by rewrite nested_value_loop_agrees.
Qed.

Lemma resolvers_agree_witness :
  Forall (fun key => isdigit ascii_isdigit key = false)
    (split DOT (str "contact.email"))
  /\ _get_nested_json_value ascii_isdigit ascii_int sample_tree
       (str "contact.email")
     = Ok (_get_nested_value sample_tree (str "contact.email")).
Proof.
  assert (Forall (fun key => isdigit ascii_isdigit key = false)
            (split DOT (str "contact.email"))) as H.
  { vm_compute. repeat constructor. }
  split; [exact H|].
  exact (resolvers_agree ascii_isdigit ascii_int sample_tree
           (str "contact.email") H).
Defined.

(** ** The counters of the template replacement *)

Lemma categorize_category key : _categorize_placeholder key ∈ CATEGORIES.
Proof.
  unfold _categorize_placeholder, CATEGORIES.
  repeat (match goal with |- context [if ?b then _ else _] => destruct b end);
    set_solver.
Qed.

Lemma balanced_initial : balanced initial_counts.
Proof. split; [done|]. by vm_compute. Qed.

Lemma balanced_add counts category n :
  category ∈ CATEGORIES -> balanced counts ->
  balanced (add_count "total_replacements" n (add_count category n counts)).
Proof.
  intros Hc [Hdom Htotal]. split.
  - unfold add_count. rewrite !dom_insert_L, Hdom.
    assert (category ∈ dom initial_counts) as Hin.
    { unfold CATEGORIES in Hc. apply elem_of_dom.
      repeat (apply elem_of_cons in Hc as [->|Hc]; [by vm_compute; eauto|]).
      by apply elem_of_nil in Hc. }
    assert ("total_replacements"%string ∈ dom initial_counts) as Ht.
    { apply elem_of_dom. by vm_compute; eauto. }
    rewrite (subseteq_union_1_L {[category]}) by (by apply singleton_subseteq_l).
    by rewrite subseteq_union_1_L by (by apply singleton_subseteq_l).
  - unfold CATEGORIES in Hc. unfold add_count at 1. rewrite lookup_insert. f_equal.
    unfold category_total, CATEGORIES in *. cbn [foldr] in *.
    repeat (apply elem_of_cons in Hc as [->|Hc];
      [unfold add_count;
       rewrite ?lookup_insert, ?lookup_insert_ne, ?Htotal by done; simpl; lia|]).
    by apply elem_of_nil in Hc.
Qed.

Lemma replace_placeholder_balanced isdigit_char int repr data all_mappings
    state placeholder :
  balanced state.2 ->
  balanced
    (replace_placeholder isdigit_char int repr data all_mappings state
       placeholder).1.2.
Proof.
  intros H. unfold replace_placeholder. destruct state as [doc counts].
  destruct (placeholder_value _ _ _ _ _) as [value|e]; [|done].
  set (key := strip placeholder).
  assert (forall (x : DocxProcessor * result nat),
    balanced
      (let (doc', r) := x in
       match r with
       | Raise e => ((doc', counts), Raise e)
       | Ok count =>
           if 0 <? count
           then ((doc', add_count "total_replacements" count
                          (add_count (_categorize_placeholder key) count counts)),
                 Ok tt)
           else ((doc', counts), Ok tt)
       end).1.2) as Hx.
  { intros [doc' [count|e]]; [|done]. destruct (0 <? count); [|done].
    simpl. apply balanced_add; [apply categorize_category|done]. }
  destruct value; try done; apply Hx.
Qed.

Lemma template_loop_balanced isdigit_char int repr data all_mappings
    placeholders state :
  balanced state.2 ->
  balanced
    (template_loop isdigit_char int repr data all_mappings state placeholders).1.2.
Proof.
  revert state. induction placeholders as [|placeholder rest IH];
    intros state H; [done|].
  cbn [template_loop].
  pose proof (replace_placeholder_balanced isdigit_char int repr data
                all_mappings state placeholder H) as H1.
  destruct (replace_placeholder _ _ _ _ _ _ _) as [state' [u|e]]; simpl in H1.
  - by apply IH.
  - done.
Qed.

(** X12.  The counters that [apply_json_template_replacement] returns
    have the seven keys it starts with, and the counter
    [total_replacements] is the sum of the six counters of the
    categories. *)
Theorem counters_balanced (isdigit_char : char -> bool)
    (int : pystr -> option nat) (repr : DataTree -> pystr) (self : ResumeProcessor)
    (custom_mappings : option (gmap pystr pystr)) :
  match (apply_json_template_replacement isdigit_char int repr self
           custom_mappings).2 with
  | Ok counts => balanced counts
  | Raise _ => True
  end.
Proof.
  unfold apply_json_template_replacement.
  destruct (resume_data self) as [data|]; [|done].
  destruct (falsy data); [done|].
  match goal with |- context [template_loop ?a ?b ?c ?d ?m ?s ?l] =>
    pose proof (template_loop_balanced a b c d m l s balanced_initial) as H;
    destruct (template_loop a b c d m s l) as [[doc counts] [u|err]]
  end; done.
Qed.

(** ** Validation of the data *)

Lemma required_loop_dict entries fields errs :
  required_loop (DDict entries) fields errs
  = Some (errs ++ flat_map (fun field =>
                    match dict_get entries field with
                    | Some _ => []
                    | None => [str "Missing required field: " ++ field]
                    end) fields).
Proof.
  revert errs. induction fields as [|field fields IH]; intros errs; simpl.
  - by rewrite app_nil_r.
  - rewrite IH. destruct (dict_get entries field); simpl; [done|].
    by rewrite <- app_assoc.
Qed.

Lemma array_loop_dict entries fields errs :
  array_loop (DDict entries) fields errs
  = Some (errs ++ flat_map (fun field =>
                    match dict_get entries field with
                    | None | Some (DList _) => []
                    | Some _ => [str "Field " ++ field ++ str " should be an array"]
                    end) fields).
Proof.
  revert errs. induction fields as [|field fields IH]; intros errs; simpl.
  - by rewrite app_nil_r.
  - destruct (dict_get entries field) as [[]|]; rewrite IH; simpl;
      by rewrite <- ?app_assoc.
Qed.

Lemma contact_loop_scalar contact field fields ws :
  scalar contact = true -> contact_loop contact (field :: fields) ws = None.
Proof. by destruct contact. Qed.

Lemma contact_loop_container contact fields ws :
  scalar contact = false -> is_Some (contact_loop contact fields ws).
Proof.
  intros H. revert ws. induction fields as [|field fields IH]; intros ws; [by eexists|].
  cbn [contact_loop]. destruct contact; try done; simpl; apply IH.
Qed.

Lemma flat_map_nil {A B} (f : A -> list B) l :
  flat_map f l = [] <-> Forall (fun x => f x = []) l.
Proof.
  induction l as [|x l IH]; simpl; [by split; [constructor|]|].
  split.
  - intros [H1 H2]%app_eq_nil. constructor; [done|by apply IH].
  - intros H. inversion H as [|? ? H1 H2]; subst. rewrite H1. by apply IH.
Qed.

(** X13.  On data that is a non-empty object, [validate_resume_data]
    raises (a [TypeError], at [field not in contact]) exactly when the
    data has a [contact] that is [null], a boolean or a number; for any
    other data of this kind it returns a result. *)
Theorem validation_raises (p : DocxProcessor) (entries : list (pystr * DataTree)) :
  entries <> [] ->
  validate_resume_data {| processor := p; resume_data := Some (DDict entries) |}
  = None
  <-> exists contact,
        dict_get entries (str "contact") = Some contact /\ scalar contact = true.
Proof.
  intros Hne. unfold validate_resume_data. cbn [resume_data falsy].
  destruct entries as [|entry entries]; [done|].
  set (data := entry :: entries).
  rewrite required_loop_dict. cbn [mbind option_bind py_in py_getitem].
  destruct (dict_get data (str "contact")) as [contact|] eqn:Hc.
  - cbn [mbind option_bind]. destruct (scalar contact) eqn:Hs.
    + unfold CONTACT_FIELDS. rewrite contact_loop_scalar by done.
      split; [|done]. intros _. by exists contact.
    + destruct (contact_loop_container contact CONTACT_FIELDS [] Hs) as [ws ->].
      cbn [mbind option_bind]. rewrite array_loop_dict. simpl.
      split; [done|]. intros (c & [= <-] & Hc'). congruence.
  - rewrite array_loop_dict. simpl. split; [done|]. by intros (c & ? & _).
Qed.

Lemma validation_raises_witness :
  [(str "contact", DNone)] <> []
  /\ (validate_resume_data
        {| processor := loaded letter_document;
           resume_data := Some (DDict [(str "contact", DNone)]) |}
      = None
      <-> exists contact,
            dict_get [(str "contact", DNone)] (str "contact") = Some contact
            /\ scalar contact = true).
Proof.
  assert ([(str "contact", DNone)] <> []) as H by discriminate.
  split; [exact H|].
  exact (validation_raises (loaded letter_document) [(str "contact", DNone)] H).
Defined.

(** X14.  When [validate_resume_data] returns on data that is a non-empty
    object, the data is valid exactly when it has the three required
    fields and each of the four array fields that it has is a list. *)
Theorem validation_valid (p : DocxProcessor) (entries : list (pystr * DataTree))
    (v : Validation) :
  entries <> [] ->
  validate_resume_data {| processor := p; resume_data := Some (DDict entries) |}
  = Some v ->
  valid v = true
  <-> Forall (fun field => is_Some (dict_get entries field)) REQUIRED_FIELDS
      /\ Forall (fun field => forall value, dict_get entries field = Some value ->
                                exists items, value = DList items) ARRAY_FIELDS.
Proof.
  intros Hne. unfold validate_resume_data. cbn [resume_data falsy].
  destruct entries as [|entry entries]; [done|].
  set (data := entry :: entries).
  rewrite required_loop_dict. cbn [mbind option_bind].
  match goal with |- mbind _ ?w = _ -> _ => destruct w as [ws|] end; [|done].
  cbn [mbind option_bind]. rewrite array_loop_dict, app_nil_l.
  intros (errs & He & Hv)%bind_Some.
  apply (inj Some) in He, Hv. subst errs v. cbn [valid].
  assert (forall a b : list pystr,
            match a ++ b with [] => true | _ :: _ => false end = true
            <-> a = [] /\ b = []) as ->.
  { intros [|x a] b; simpl; [|split; [done|by intros []]].
    destruct b; split; try done. by intros []. }
  rewrite !flat_map_nil.
  apply Morphisms_Prop.and_iff_morphism.
  - apply Forall_iff. intros field.
    destruct (dict_get data field); split; try done; try (by eexists).
  - apply Forall_iff. intros field.
    destruct (dict_get data field) as [[]|]; split; try done;
      try (intros H; by destruct (H _ eq_refl)).
    intros _ value [= <-]. by eexists.
Qed.

Lemma validation_valid_witness :
  [(str "name", DStr (str "Bob")); (str "education", DStr (str "MIT"))] <> []
  /\ validate_resume_data
       {| processor := loaded letter_document;
          resume_data :=
            Some (DDict [(str "name", DStr (str "Bob"));
                         (str "education", DStr (str "MIT"))]) |}
     = Some {| valid := false;
               errors := [str "Missing required field: contact";
                          str "Missing required field: professional_summary";
                          str "Field education should be an array"];
               warnings := Some [] |}
  /\ (false = true
      <-> Forall (fun field =>
                    is_Some (dict_get [(str "name", DStr (str "Bob"));
                                       (str "education", DStr (str "MIT"))] field))
            REQUIRED_FIELDS
          /\ Forall (fun field => forall value,
                       dict_get [(str "name", DStr (str "Bob"));
                                 (str "education", DStr (str "MIT"))] field
                       = Some value ->
                       exists items, value = DList items) ARRAY_FIELDS).
Proof.
  assert ([(str "name", DStr (str "Bob")); (str "education", DStr (str "MIT"))]
          <> []) as Hne by discriminate.
  assert (validate_resume_data
            {| processor := loaded letter_document;
               resume_data :=
                 Some (DDict [(str "name", DStr (str "Bob"));
                              (str "education", DStr (str "MIT"))]) |}
          = Some {| valid := false;
                    errors := [str "Missing required field: contact";
                               str "Missing required field: professional_summary";
                               str "Field education should be an array"];
                    warnings := Some [] |}) as Hv by reflexivity.
  split; [exact Hne|]. split; [exact Hv|].
  exact (validation_valid (loaded letter_document) _ _ Hne Hv).
Defined.

(** ** Applying the fields of the data *)

Lemma resume_loop_shape repr current_date data mappings :
  forall d total,
    exists d' total',
      resume_loop repr current_date data (loaded d) mappings total
      = (loaded d', total')
      /\ total <= total'
      /\ Forall2 same_shape (body d) (body d')
      /\ style_names d' = style_names d.
Proof.
  induction mappings as [|[placeholder json_path] rest IH]; intros d total.
  - exists d, total. repeat split; [lia|].
    apply Forall_Forall2_diag, Forall_forall. intros b _. apply same_shape_refl.
  - cbn [resume_loop].
    destruct (mapping_value repr current_date data placeholder json_path)
      as [value|]; [|apply IH].
    destruct (replace_shape d placeholder value true true) as (d1 & H1 & Hs1 & Hn1).
    destruct (find_and_replace_text (loaded d) placeholder value true true)
      as [doc1 r]. simpl in H1. subst doc1.
    assert (forall total1, total <= total1 ->
      exists d' total',
        resume_loop repr current_date data (loaded d1) rest total1 = (loaded d', total')
        /\ total <= total'
        /\ Forall2 same_shape (body d) (body d')
        /\ style_names d' = style_names d) as Hrest.
    { intros total1 Hle.
      destruct (IH d1 total1) as (d' & total' & -> & Hle' & Hs & Hn).
      exists d', total'. repeat split; [lia| |congruence].
      eapply Forall2_trans'; [|exact Hs1|exact Hs]. apply same_shape_trans. }
    destruct r as [replacements|e]; apply Hrest; lia.
Qed.

(** X15.  With data that is not empty, [apply_resume_data] returns, also
    when a replacement raises; it leaves the data as they are and keeps
    the shape of the document: as many blocks, rows, cells and
    paragraphs, and for every paragraph the same style and layout. *)
Theorem apply_resume_data_shape (repr : DataTree -> pystr) (current_date : pystr)
    (d : Document) (data : DataTree)
    (field_mappings : option (list (pystr * option pystr))) :
  falsy data = false ->
  exists d' total,
    apply_resume_data repr current_date
      {| processor := loaded d; resume_data := Some data |} field_mappings
    = ({| processor := loaded d'; resume_data := Some data |}, Ok total)
    /\ Forall2 same_shape (body d) (body d')
    /\ style_names d' = style_names d.
Proof.
  intros Hd. unfold apply_resume_data. cbn [resume_data processor]. rewrite Hd.
  match goal with |- context [resume_loop _ _ _ _ ?m 0] =>
    destruct (resume_loop_shape repr current_date data m d 0)
      as (d' & total & -> & _ & Hs & Hn)
  end.
  by exists d', total.
Qed.

Lemma apply_resume_data_shape_witness :
  falsy sample_tree = false
  /\ exists d' total,
       apply_resume_data no_repr (str "May 2024")
         {| processor := loaded names_document; resume_data := Some sample_tree |}
         None
       = ({| processor := loaded d'; resume_data := Some sample_tree |}, Ok total)
       /\ Forall2 same_shape (body names_document) (body d')
       /\ style_names d' = style_names names_document.
Proof.
  assert (falsy sample_tree = false) as H by reflexivity.
  split; [exact H|].
  exact (apply_resume_data_shape no_repr (str "May 2024") names_document
           sample_tree None H).
Defined.

(** ** The operations of the endpoint *)

Lemma perform_accounting exception_text original_styles s operation :
  operations_performed (perform exception_text original_styles s operation)
  + length (edit_errors (perform exception_text original_styles s operation))
  = S (operations_performed s + length (edit_errors s)).
Proof.
  unfold perform, with_error.
  repeat match goal with
  | |- context [decide ?P] => destruct (decide P)
  | |- context [find_and_replace_text ?a ?b ?c ?d ?e] =>
      destruct (find_and_replace_text a b c d e) as [? [?|?]]
  | |- context [add_paragraph ?a ?b ?c ?d] =>
      destruct (add_paragraph a b c d) as [? [?|?]]
  | |- context [insert_text_at_bookmark ?a ?b ?c] =>
      destruct (insert_text_at_bookmark a b c) as [[]|?]
  | |- context [match ?x with _ => _ end] => destruct x
  end; cbn [operations_performed edit_errors]; rewrite ?length_app; simpl; lia.
Qed.

Lemma fold_perform_accounting exception_text original_styles operations s :
  operations_performed (fold_left (perform exception_text original_styles) operations s)
  + length (edit_errors
              (fold_left (perform exception_text original_styles) operations s))
  = operations_performed s + length (edit_errors s) + length operations.
Proof.
  revert s. induction operations as [|operation rest IH]; intros s; simpl; [lia|].
  rewrite IH, perform_accounting. lia.
Qed.

(** X16.  Every operation of a request is accounted for once: after the
    loop of [edit_docx], the number of operations performed and the
    number of errors add up to the number of operations. *)
Theorem operations_accounted (exception_text : exn -> pystr)
    (original_styles : list pystr) (processor : DocxProcessor)
    (operations : list EditOperation) :
  operations_performed
    (perform_all exception_text original_styles processor operations)
  + length (edit_errors
              (perform_all exception_text original_styles processor operations))
  = length operations.
Proof.
  unfold perform_all. by rewrite fold_perform_accounting.
Qed.



(** X18.  An [insert] operation is never performed: whatever its
    arguments, it leaves the document and the number of operations
    performed as they are and adds one error. *)
Theorem insert_never_performed (exception_text : exn -> pystr)
    (original_styles : list pystr) (s : EditState) (operation : EditOperation) :
  operation_type operation = str "insert" ->
  edit_processor (perform exception_text original_styles s operation)
  = edit_processor s
  /\ operations_performed (perform exception_text original_styles s operation)
     = operations_performed s
  /\ exists message,
       edit_errors (perform exception_text original_styles s operation)
       = edit_errors s ++ [message].
Proof.
  intros Ht. unfold perform. rewrite Ht.
  rewrite decide_False by discriminate. rewrite decide_False by discriminate.
  rewrite decide_True by done. unfold insert_text_at_bookmark, with_error.
  destruct (bookmark_name operation) as [[|c name]|];
    destruct (new_text operation) as [[|c' text]|];
    try destruct (document (edit_processor s)); cbn; by eauto.
Qed.

Lemma insert_never_performed_witness :
  operation_type insert_operation = str "insert"
  /\ edit_processor (perform no_message [] letter_state insert_operation)
     = edit_processor letter_state
  /\ operations_performed (perform no_message [] letter_state insert_operation)
     = operations_performed letter_state
  /\ exists message,
       edit_errors (perform no_message [] letter_state insert_operation)
       = edit_errors letter_state ++ [message].
Proof.
  assert (operation_type insert_operation = str "insert") as Ht by reflexivity.
  split; [exact Ht|].
  exact (insert_never_performed no_message [] letter_state insert_operation Ht).
Defined.

(** ** What the bullet expansion leaves alone *)

Lemma first_containing_split search blocks k i p :
  first_containing search blocks k = Some (i, p) ->
  exists before after,
    blocks = before ++ BlockP p :: after /\ i = k + length before.
Proof.
  revert k. induction blocks as [|[q|t] blocks IH]; intros k H; [done| |];
    cbn [first_containing] in H.
  - destruct (contains search (paragraph_text q)).
    + injection H as <- <-. exists [], blocks. split; [done|]. simpl. lia.
    + destruct (IH _ H) as (before & after & -> & ->).
      exists (BlockP q :: before), after. split; [done|]. simpl. lia.
  - destruct (IH _ H) as (before & after & -> & ->).
    exists (BlockT t :: before), after. split; [done|]. simpl. lia.
Qed.

Lemma bullets_tables (g : pystr -> Paragraph) items :
  flat_map block_tables (List.map (fun item => BlockP (g item)) items) = [].
Proof. induction items as [|item items IH]; [done|]. simpl. by rewrite IH. Qed.

Lemma bullets_paragraphs (g : pystr -> Paragraph) items :
  flat_map block_paragraphs (List.map (fun item => BlockP (g item)) items)
  = List.map g items.
Proof. induction items as [|item items IH]; [done|]. simpl. by rewrite IH. Qed.


(** ** Where the placeholders come from *)

Lemma Tokens_body text bodies body :
  Tokens text bodies -> body ∈ bodies ->
  body <> [] /\ (RBRACE ∉ body) /\ exists a b, text = a ++ token body ++ b.
Proof.
  intros H. induction H as [|body' rest bodies Hne Hb _ IH|c rest bodies _ _ IH];
    intros Hin.
  - by apply elem_of_nil in Hin.
  - apply elem_of_cons in Hin as [->|Hin].
    + split; [done|]. split; [done|]. by exists [], rest.
    + destruct (IH Hin) as (? & ? & a & b & ->).
      split; [done|]. split; [done|].
      exists (token body' ++ a), b. by rewrite <- app_assoc.
  - destruct (IH Hin) as (? & ? & a & b & ->).
    split; [done|]. split; [done|]. by exists (c :: a), b.
Qed.

Lemma join_part (parts : list pystr) :
  forall a m b,
    m <> [] -> NEWLINE ∉ m ->
    join [NEWLINE] parts = a ++ m ++ b ->
    exists part a' b', part ∈ parts /\ part = a' ++ m ++ b'.
Proof.
  induction parts as [|p parts IH]; intros a m b Hne Hnl Hj.
  - simpl in Hj. destruct a; [by destruct m|done].
  - destruct parts as [|q parts].
    + exists p, a, b. split; [by left|done].
    + change (join [NEWLINE] (p :: q :: parts))
        with (p ++ NEWLINE :: join [NEWLINE] (q :: parts)) in Hj.
      apply app_eq_app in Hj as [l [[-> Hj]|[-> Hj]]].
      * apply app_eq_app in Hj as [l2 [[-> Hj]|[-> Hj]]].
        -- destruct l2 as [|c l2].
           ++ exists (a ++ l), a, []. split; [by left|]. by rewrite !app_nil_r.
           ++ injection Hj as <- _. exfalso. apply Hnl.
              apply elem_of_app. right. by left.
        -- exists (a ++ m ++ l2), a, l2. split; [by left|done].
      * destruct l as [|c l].
        -- destruct m as [|c m]; [done|]. injection Hj as <- _.
           exfalso. apply Hnl. by left.
        -- injection Hj as <- Hj.
           destruct (IH _ _ _ Hne Hnl Hj) as (part & a' & b' & Hp & ->).
           exists (a' ++ m ++ b'), a', b'. split; [by right|done].
Qed.

(** X20.  A placeholder that the expansion discovers and that holds no
    line break lies in one top-level paragraph: there is a top-level
    paragraph whose text contains the token. *)
Theorem discovered_in_paragraph (self : ResumeProcessor) (d : Document)
    (body : pystr) :
  processor self = loaded d ->
  body ∈ discovered_placeholders self ->
  NEWLINE ∉ body ->
  exists p,
    p ∈ paragraphs d /\ contains (token body) (paragraph_text p) = true.
Proof.
  intros Hd Hin Hnl.
  destruct (Tokens_body _ _ _ (findall_placeholders_Tokens _) Hin)
    as (_ & _ & a & b & Hab).
  rewrite Hd in Hab. unfold get_document_text in Hab. cbn [document loaded] in Hab.
  assert (token body <> []) as Hne by done.
  assert (NEWLINE ∉ token body) as Hnt.
  { unfold token. intros H. apply elem_of_app in H as [H|H].
    + apply elem_of_cons in H as [H|H]; [discriminate|].
      apply list_elem_of_singleton in H. discriminate.
    + apply elem_of_app in H as [H|H]; [done|].
      apply elem_of_cons in H as [H|H]; [discriminate|].
      apply list_elem_of_singleton in H. discriminate. }
  destruct (join_part _ a (token body) b Hne Hnt Hab)
    as (part & a' & b' & Hp & ->).
  apply list_elem_of_In, in_map_iff in Hp as (p & Hp & Hin').
  exists p. split; [by apply list_elem_of_In|].
  rewrite Hp. apply contains_middle.
Qed.

Lemma discovered_in_paragraph_witness :
  processor (resume_of names_document) = loaded names_document
  /\ str "name" ∈ discovered_placeholders (resume_of names_document)
  /\ (NEWLINE ∉ str "name")
  /\ exists p,
       p ∈ paragraphs names_document
       /\ contains (token (str "name")) (paragraph_text p) = true.
Proof.
  assert (processor (resume_of names_document) = loaded names_document) as Hd
    by reflexivity.
  assert (str "name" ∈ discovered_placeholders (resume_of names_document)) as Hin.
  { change (discovered_placeholders (resume_of names_document))
      with [str "name"; str "NAME"]. by left. }
  assert (NEWLINE ∉ str "name") as Hnl.
  { intros H. vm_compute in H.
    repeat (apply elem_of_cons in H as [H|H]; [discriminate|]).
    by apply elem_of_nil in H. }
  split; [exact Hd|]. split; [exact Hin|]. split; [exact Hnl|].
  exact (discovered_in_paragraph (resume_of names_document) names_document
           (str "name") Hd Hin Hnl).
Defined.

(** ** The default short mappings *)

Lemma lstrip_elem c s : c ∈ lstrip s -> c ∈ s.
Proof.
  induction s as [|x s IH]; [done|]. simpl.
  destruct (is_space x); [|done]. intros H. right. by apply IH.
Qed.

Lemma strip_elem c s : c ∈ strip s -> c ∈ s.
Proof.
  unfold strip, rstrip. intros H.
  apply lstrip_elem, list_elem_of_In, in_rev, list_elem_of_In.
  apply lstrip_elem, list_elem_of_In, in_rev, list_elem_of_In, H.
Qed.

(** X21.  The default short mappings never apply: their keys are written
    with the braces, and the text of a discovered placeholder holds no
    closing brace.  Without custom mappings, every discovered placeholder
    is resolved with its own text as the path. *)
Theorem default_mappings_unused (isdigit_char : char -> bool)
    (int : pystr -> option nat) (self : ResumeProcessor) (data : DataTree)
    (placeholder : pystr) :
  placeholder ∈ discovered_placeholders self ->
  _get_default_short_mappings !! strip placeholder = None
  /\ placeholder_value isdigit_char int data _get_default_short_mappings
       (strip placeholder)
     = _get_nested_json_value isdigit_char int data (strip placeholder).
Proof.
  intros Hin.
  destruct (Tokens_body _ _ _ (findall_placeholders_Tokens _) Hin) as (_ & Hb & _).
  assert (RBRACE ∉ strip placeholder) as Hs.
  { intros H. by apply Hb, strip_elem. }
  assert (_get_default_short_mappings !! strip placeholder = None) as Hnone.
  { destruct (_get_default_short_mappings !! strip placeholder) as [path|] eqn:E;
      [exfalso|done].
    unfold _get_default_short_mappings in E. apply elem_of_list_to_map_2 in E.
    repeat (apply elem_of_cons in E as [E|E];
      [injection E as E _; apply Hs; rewrite E;
       apply (bool_decide_unpack _); by vm_compute|]).
    by apply elem_of_nil in E. }
  split; [done|]. unfold placeholder_value. by rewrite Hnone.
Qed.

Lemma default_mappings_unused_witness :
  str "NAME" ∈ discovered_placeholders (resume_of names_document)
  /\ _get_default_short_mappings !! strip (str "NAME") = None
  /\ placeholder_value ascii_isdigit ascii_int sample_tree
       _get_default_short_mappings (strip (str "NAME"))
     = _get_nested_json_value ascii_isdigit ascii_int sample_tree
         (strip (str "NAME")).
Proof.
  assert (str "NAME" ∈ discovered_placeholders (resume_of names_document)) as Hin.
  { change (discovered_placeholders (resume_of names_document))
      with [str "name"; str "NAME"]. right. by left. }
  split; [exact Hin|].
  exact (default_mappings_unused ascii_isdigit ascii_int
           (resume_of names_document) sample_tree (str "NAME") Hin).
Defined.

(** ** The technical skills *)

Lemma strings_of_spec repr items :
  strings_of items
  = if forallb is_string items then Some (List.map (py_str repr) items) else None.
Proof.
  induction items as [|[] items IH]; try done. simpl. rewrite IH.
  by destruct (forallb is_string items).
Qed.

(** X22.  When the data has a list under [technical_skills],
    [apply_technical_skills] raises a [TypeError] if an item of the list
    is not a string; otherwise it is the case-sensitive replacement of the
    placeholder, with formatting preserved, by the text that
    [_format_json_value] gives for this list under the key
    [technical_skills]. *)
Theorem technical_skills_text (repr : DataTree -> pystr) (d : Document)
    (entries : list (pystr * DataTree)) (items : list DataTree)
    (placeholder : pystr) :
  dict_get entries (str "technical_skills") = Some (DList items) ->
  apply_technical_skills
    {| processor := loaded d; resume_data := Some (DDict entries) |} placeholder
  = if forallb is_string items
    then
      let (doc, r) :=
        find_and_replace_text (loaded d) placeholder
          (_format_json_value repr (DList items) (str "technical_skills"))
          true true in
      ({| processor := doc; resume_data := Some (DDict entries) |}, Some r)
    else ({| processor := loaded d; resume_data := Some (DDict entries) |}, None).
Proof.
  intros H. unfold apply_technical_skills. cbn [resume_data processor].
  assert (falsy (DDict entries) = false) as -> by (by destruct entries).
  cbn [py_in py_getitem]. rewrite H. rewrite (strings_of_spec repr).
  destruct (forallb is_string items); [|done].
  unfold _format_json_value.
  assert (contains (str "technical_skills") (lower (str "technical_skills")) = true)
    as -> by (by vm_compute).
  done.
Qed.

Lemma technical_skills_text_witness :
  dict_get skills_entries (str "technical_skills")
  = Some (DList [DStr (str "Go"); DStr (str "C")])
  /\ apply_technical_skills
       {| processor := loaded letter_document;
          resume_data := Some (DDict skills_entries) |} (str "a")
     = if forallb is_string [DStr (str "Go"); DStr (str "C")]
       then
         let (doc, r) :=
           find_and_replace_text (loaded letter_document) (str "a")
             (_format_json_value no_repr (DList [DStr (str "Go"); DStr (str "C")])
                (str "technical_skills"))
             true true in
         ({| processor := doc; resume_data := Some (DDict skills_entries) |},
          Some r)
       else ({| processor := loaded letter_document;
                resume_data := Some (DDict skills_entries) |}, None).
Proof.
  assert (dict_get skills_entries (str "technical_skills")
          = Some (DList [DStr (str "Go"); DStr (str "C")])) as H by reflexivity.
  split; [exact H|].
  exact (technical_skills_text no_repr letter_document skills_entries
           [DStr (str "Go"); DStr (str "C")] (str "a") H).
Defined.

(** ** The document information after the operations *)

Lemma same_shape_counts blocks blocks' :
  Forall2 same_shape blocks blocks' ->
  length (flat_map block_paragraphs blocks')
  = length (flat_map block_paragraphs blocks)
  /\ length (flat_map block_tables blocks') = length (flat_map block_tables blocks).
Proof.
  induction 1 as [|b b' blocks blocks' Hb _ [IHp IHt]]; [done|].
  destruct b, b'; try done; simpl; rewrite ?length_app; simpl; lia.
Qed.

Lemma perform_counts exception_text original_styles s d operation :
  edit_processor s = loaded d ->
  exists d',
    edit_processor (perform exception_text original_styles s operation) = loaded d'
    /\ length (tables d') = length (tables d)
    /\ length (paragraphs d) <= length (paragraphs d')
    /\ length (paragraphs d') + operations_performed s
       <= length (paragraphs d)
          + operations_performed
              (perform exception_text original_styles s operation).
Proof.
  intros Hd. unfold perform, with_error.
  destruct (decide (operation_type operation = str "replace")).
  { destruct (search_text operation) as [[|c search]|];
      try (exists d; cbn; repeat split; [done|lia..]).
    destruct (replace_text operation) as [repl|];
      [|exists d; cbn; repeat split; [done|lia..]].
    rewrite Hd.
    destruct (replace_shape d (c :: search) repl (preserve_formatting operation)
                (case_sensitive operation)) as (d' & Hd' & Hs & _).
    apply same_shape_counts in Hs as [Hp Ht].
    destruct (find_and_replace_text _ _ _ _ _) as [doc [n|err]]; simpl in Hd';
      subst doc; [destruct (0 <? n)|]; exists d'; cbn;
      unfold tables, paragraphs; repeat split; lia. }
  destruct (decide (operation_type operation = str "add_paragraph")).
  { destruct (new_text operation) as [[|c text]|];
      try (exists d; cbn; repeat split; [done|lia..]).
    rewrite Hd.
    destruct (add_paragraph_body d original_styles (c :: text)
                (style_name operation)) as (p' & -> & _ & Hp & Ht & _).
    eexists. cbn. split; [reflexivity|]. rewrite Hp, Ht, length_app. simpl.
    repeat split; lia. }
  destruct (decide (operation_type operation = str "insert")).
  { unfold insert_text_at_bookmark. rewrite Hd. cbn [document loaded].
    destruct (bookmark_name operation) as [[|c name]|];
      destruct (new_text operation) as [[|c' text]|];
      exists d; cbn; repeat split; (done || lia). }
  exists d; cbn; repeat split; (done || lia).
Qed.

Lemma fold_perform_counts exception_text original_styles operations :
  forall s d,
    edit_processor s = loaded d ->
    exists d',
      edit_processor (fold_left (perform exception_text original_styles) operations s)
      = loaded d'
      /\ length (tables d') = length (tables d)
      /\ length (paragraphs d) <= length (paragraphs d')
      /\ length (paragraphs d') + operations_performed s
         <= length (paragraphs d)
            + operations_performed
                (fold_left (perform exception_text original_styles) operations s).
Proof.
  induction operations as [|operation rest IH]; intros s d Hd.
  - exists d. simpl. repeat split; (done || lia).
  - simpl.
    destruct (perform_counts exception_text original_styles s d operation Hd)
      as (d1 & H1 & Ht1 & Hp1 & Hn1).
    destruct (IH _ d1 H1) as (d' & H' & Ht & Hp & Hn).
    exists d'. repeat split; (done || lia).
Qed.


(** ** The template that is a plain text *)

Lemma scan_start cs pat text :
  forall skip pos s e,
    (s, e) ∈ Re.scan cs pat skip pos text -> pos <= s.
Proof.
  induction text as [|c text IH]; intros skip pos s e H.
  - simpl in H. destruct skip; [|by apply elem_of_nil in H].
    destruct pat; [|by apply elem_of_nil in H].
    apply list_elem_of_singleton in H. injection H as -> _. lia.
  - cbn [Re.scan] in H. destruct skip as [|k].
    + destruct (match_here cs pat (c :: text)).
      * apply elem_of_cons in H as [H|H]; [injection H as -> _; lia|].
        apply IH in H. lia.
      * apply IH in H. lia.
    + apply IH in H. lia.
Qed.

Lemma sub_spans_step parts text pos spans c :
  text !! pos = Some c ->
  match spans with
  | [] => True
  | (s, _) :: _ => S pos <= s
  end ->
  Re.sub_spans parts text pos spans = c :: Re.sub_spans parts text (S pos) spans.
Proof.
  intros Hc Hs. destruct spans as [|[s e] spans]; simpl.
  - by apply drop_S.
  - rewrite (drop_S _ _ _ Hc).
    replace (s - pos) with (S (s - S pos)) by lia. done.
Qed.

Lemma sub_spans_literal search repl text n r :
  search <> [] -> Subst false search repl text n r ->
  forall pre,
    Re.sub_spans [Re.Literal repl] (pre ++ text) (length pre)
      (Re.scan false search 0 (length pre) text) = r
    /\ length (Re.scan false search 0 (length pre) text) = n.
Proof.
  intros Hs H.
  induction H as [|m rest n r Hm _ IH|c rest n r Hno _ IH]; intros pre.
  - rewrite scan_nil by done. simpl. by rewrite app_nil_r, drop_all.
  - rewrite (scan_occurrence _ _ _ _ _ Hs Hm).
    pose proof (matches_length _ _ _ Hm) as Hl.
    destruct (IH (pre ++ m)) as [IHr IHn].
    rewrite length_app, Hl, <- app_assoc in IHr. rewrite length_app, Hl in IHn.
    cbn [Re.sub_spans length]. rewrite Nat.sub_diag, IHr, IHn.
    split; [|done]. unfold Re.expand. simpl. by rewrite app_nil_r.
  - rewrite scan_other by done.
    destruct (IH (pre ++ [c])) as [IHr IHn].
    rewrite length_app, <- app_assoc in IHr. rewrite length_app in IHn.
    simpl in IHr, IHn. rewrite Nat.add_1_r in IHr, IHn.
    split; [|done]. rewrite sub_spans_step with (c := c).
    + by rewrite IHr.
    + by apply list_lookup_middle.
    + destruct (Re.scan false search 0 (S (length pre)) rest) as [|[s e] spans] eqn:E;
        [done|].
      apply (scan_start false search rest 0 (S (length pre)) s e).
      rewrite E. by left.
Qed.

Lemma literal_paragraph_correct search repl p n r :
  search <> [] -> BACKSLASH ∉ repl ->
  Subst false search repl (paragraph_text p) n r ->
  exists p',
    _replace_text_in_paragraph p search repl false false
    = Ok (p', counted false (paragraph_text p) n r)
    /\ paragraph_text p' = r.
Proof.
  intros Hs Hb H. unfold _replace_text_in_paragraph.
  destruct (runs p) as [|r0 rs] eqn:Hruns.
  { assert (paragraph_text p = []) as Ht by (unfold paragraph_text; by rewrite Hruns).
    rewrite Ht in *. inversion H as [|m ? ? ? Hm|]; subst.
    - by exists p.
    - pose proof (matches_length _ _ _ Hm). destruct m; [|discriminate].
      by destruct search. }
  fold (found false search (paragraph_text p)).
  destruct (found false search (paragraph_text p)) eqn:Hc; cbn [negb].
  2:{ destruct (Subst_not_found _ _ _ _ _ _ Hc H) as [-> ->].
      exists p. split; [|done]. unfold counted. by destruct (decide _). }
  unfold Re.sub, Re.findall_count, Re.finditer.
  assert (existsb (N.eqb BACKSLASH) repl = false) as ->.
  { apply not_true_is_false. intros (c & Hin & Heq)%existsb_exists.
    apply N.eqb_eq in Heq as <-. by apply Hb, list_elem_of_In. }
  destruct (sub_spans_literal _ _ _ _ _ Hs H []) as [Hr Hn].
  simpl in Hr, Hn. cbn [Py.bind]. rewrite Hr, Hn. unfold counted.
  destruct (decide (r <> paragraph_text p)) as [Hne|Heq].
  - eexists. split.
    + destruct (decide (r = paragraph_text p)); [done|reflexivity].
    + unfold paragraph_text. simpl. apply app_nil_r.
  - exists p. apply dec_stable in Heq. split; [|done].
    by destruct (decide (r = paragraph_text p)).
Qed.

Lemma for_each_literal search repl ps n rs :
  search <> [] -> BACKSLASH ∉ repl ->
  DocSubst false search repl false (List.map paragraph_text ps) n rs ->
  exists ps',
    for_each (in_place (fun p => _replace_text_in_paragraph p search repl false false))
      ps
    = (ps', Ok n)
    /\ List.map paragraph_text ps' = rs.
Proof.
  intros Hs Hb. revert n rs. induction ps as [|p ps IH]; intros n rs H.
  - inversion H; subst. by exists [].
  - inversion H as [|text n1 r texts m rs' H1 H2]; subst.
    destruct (literal_paragraph_correct _ _ _ _ _ Hs Hb H1) as (p' & Hp & Ht).
    destruct (IH _ _ H2) as (ps' & Hps & Hts).
    exists (p' :: ps'). cbn [for_each]. unfold in_place at 1.
    rewrite Hp, Hps. split; [done|]. simpl. by rewrite Ht, Hts.
Qed.



(** ** The loop over the placeholders *)

Lemma bullet_points_ok d search bullet_items pf :
  search <> [] ->
  exists d' n,
    replace_with_bullet_points (loaded d) search bullet_items pf = (loaded d', Ok n).
Proof.
  intros Hs. unfold replace_with_bullet_points. cbn [document loaded].
  destruct bullet_items as [|first others]; [by exists d, 0|].
  destruct (first_containing search (body d) 0) as [[i p]|]; [|by exists d, 0].
  destruct (find (paragraph_text p) search =? -1)%Z; [by exists d, 0|].
  destruct (Substituted_total false search (bullet_text first) (build_char_map p) Hs)
    as (n & cm' & Hsub).
  rewrite (preserve_correct _ _ _ _ _ _ Hs Hsub).
  destruct (0 <? n); by eexists _, _.
Qed.

Lemma replace_placeholder_ok isdigit_char int repr data all_mappings d counts
    placeholder :
  exists d' counts',
    replace_placeholder isdigit_char int repr data all_mappings (loaded d, counts)
      placeholder
    = ((loaded d', counts'), Ok tt).
Proof.
  unfold replace_placeholder, placeholder_value.
  set (key := strip placeholder).
  set (full := str "{{" ++ placeholder ++ str "}}").
  assert (full <> []) as Hfull by done.
  assert (exists value,
    match all_mappings !! key with
    | Some json_path => _get_nested_json_value isdigit_char int data json_path
    | None => _get_nested_json_value isdigit_char int data key
    end = Ok value) as [value ->].
  { destruct (all_mappings !! key); rewrite get_nested_resolve; by eexists. }
  assert (forall text,
    exists d' counts',
      (let (doc', r) := find_and_replace_text (loaded d) full text true false in
       match r with
       | Raise e => ((doc', counts), Raise e)
       | Ok count =>
           if 0 <? count
           then ((doc', add_count "total_replacements" count
                          (add_count (_categorize_placeholder key) count counts)),
                 Ok tt)
           else ((doc', counts), Ok tt)
       end) = ((loaded d', counts'), Ok tt)) as Hreplace.
  { intros text.
    destruct (replace_ok d full text true false Hfull (or_introl eq_refl))
      as (d' & n & ->).
    destruct (0 <? n); by eexists _, _. }
  destruct value as [|b|z|q|s|items|entries]; try apply Hreplace.
  - by exists d, counts.
  - destruct (is_itemized key); [|apply Hreplace].
    destruct (bullet_points_ok d full (List.map (py_str repr) items) true Hfull)
      as (d' & n & ->).
    destruct (0 <? n); by eexists _, _.
Qed.

Lemma template_loop_ok isdigit_char int repr data all_mappings placeholders :
  forall d counts,
    exists d' counts',
      template_loop isdigit_char int repr data all_mappings (loaded d, counts)
        placeholders
      = ((loaded d', counts'), Ok tt).
Proof.
  induction placeholders as [|placeholder rest IH]; intros d counts.
  - by exists d, counts.
  - cbn [template_loop].
    destruct (replace_placeholder_ok isdigit_char int repr data all_mappings d
                counts placeholder) as (d1 & counts1 & ->).
    apply IH.
Qed.


